(** * A shallow embedding of the buddy allocator of [buddy.c]

    The allocator manages the static arena [g_memory] of [1 << MAX_ORDER]
    bytes.  Its state is the page table [g_pages] and the array of free
    lists [free_area].  Conventions of the embedding:

    - an address is represented by its offset from [g_memory] (the arena
      base), the null pointer by [NULL];
    - a pointer to a page record is represented by the position of the
      record in [g_pages];
    - the intrusive [list] field of a page is represented by membership of
      the page in one of the lists of [free_area];
    - reading or writing outside [g_pages], using a free list outside
      [MIN_ORDER..MAX_ORDER], or dereferencing a null pointer is undefined
      behaviour in C and is the outcome [Fault] here;
    - [buddy_alloc] and [buddy_split] call each other, and [buddy_free]
      loops: both are given a recursion budget, and running out of it is the
      separate outcome [OutOfFuel], which is shown never to happen;
    - with [USE_DEBUG] the C code also prints on entry of [buddy_alloc]
      ([buddy_dump] and [PDEBUG]); that output does not touch [g_pages] or
      [free_area] and is not part of the state below.  The text written by
      [buddy_dump] is modelled by the function of the same name. *)

From stdpp Require Import base list numbers strings pretty.

Open Scope Z_scope.

(** ** Constants and address arithmetic *)

Definition MIN_ORDER : Z := 12.
Definition MAX_ORDER : Z := 20.

(** [CLEAR(x)] stores [-1]. *)
Definition UNSET : Z := -1.

Definition PAGE_SIZE : Z := Z.shiftl 1 MIN_ORDER.

(** Number of entries of [g_pages]. *)
Definition N_PAGES : Z := Z.shiftl 1 MAX_ORDER / PAGE_SIZE.

Global Arguments MIN_ORDER : simpl never.
Global Arguments MAX_ORDER : simpl never.
Global Arguments PAGE_SIZE : simpl never.
Global Arguments N_PAGES : simpl never.

Definition PAGE_TO_ADDR (page_idx : Z) : Z := page_idx * PAGE_SIZE.

Definition ADDR_TO_PAGE (addr : Z) : Z := addr / PAGE_SIZE.

Definition BUDDY_ADDR (addr o : Z) : Z := Z.lxor addr (Z.shiftl 1 o).

(** [MAX(ceil(log2(size)), MIN_ORDER)]: for a positive [int] the double
    [ceil(log2(size))] is the exact integer logarithm rounded up. *)
Definition REQ_ORDER (size : Z) : Z := Z.max (Z.log2_up size) MIN_ORDER.

(** ** Data *)

Inductive ptr : Type :=
| NULL
| Mem (off : Z).

Record page_t : Type := mk_page {
  index : Z;
  address : Z;
  order : Z
}.

Record state : Type := mk_state {
  g_pages : list page_t;
  free_area : list (list Z)
}.

Global Instance ptr_eq_dec : EqDecision ptr.
Proof. solve_decision. Defined.

Global Instance page_eq_dec : EqDecision page_t.
Proof. solve_decision. Defined.

Global Instance state_eq_dec : EqDecision state.
Proof. solve_decision. Defined.

(** ** The monad of allocator operations *)

Inductive outcome (A : Type) : Type :=
| Ok (a : A) (s : state)
| Fault
| OutOfFuel.

Arguments Ok {A} a s.
Arguments Fault {A}.
Arguments OutOfFuel {A}.

Definition M (A : Type) : Type := state → outcome A.

Definition ret {A} (a : A) : M A := fun s => Ok a s.

Definition bind {A B} (m : M A) (f : A → M B) : M B :=
  fun s => match m s with
           | Ok a s' => f a s'
           | Fault => Fault
           | OutOfFuel => OutOfFuel
           end.

Definition fault {A} : M A := fun _ => Fault.

Definition out_of_fuel {A} : M A := fun _ => OutOfFuel.

Notation "'let*' x ':=' m 'in' f" := (bind m (fun x => f))
  (at level 10, x name, m at level 100, f at level 200).

Definition valid_order (o : Z) : bool := (MIN_ORDER <=? o) && (o <=? MAX_ORDER).

Definition valid_page (k : Z) : bool := (0 <=? k) && (k <? N_PAGES).

(** [g_pages[k]] read. *)
Definition page_at (k : Z) : M page_t :=
  fun s => if valid_page k
           then match g_pages s !! Z.to_nat k with
                | Some p => Ok p s
                | None => Fault
                end
           else Fault.

(** [g_pages[k].order = o]. *)
Definition set_order (k o : Z) : M unit :=
  let* p := page_at k in
  fun s => Ok tt (mk_state (<[Z.to_nat k := mk_page (index p) (address p) o]> (g_pages s))
                           (free_area s)).

(** The members of [free_area[o]], first to last. *)
Definition free_list (o : Z) : M (list Z) :=
  fun s => if valid_order o
           then match free_area s !! Z.to_nat o with
                | Some l => Ok l s
                | None => Fault
                end
           else Fault.

Definition set_free_list (o : Z) (l : list Z) : M unit :=
  fun s => Ok tt (mk_state (g_pages s) (<[Z.to_nat o := l]> (free_area s))).

(** Modelled from the spec: [list.h] is not part of the sources.  Section 4.4
    of the specification: insertion is at the head of the list. *)
Definition list_add (k o : Z) : M unit :=
  let* _ := page_at k in
  let* l := free_list o in
  set_free_list o (k :: l).

Fixpoint remove_first (k : Z) (l : list Z) : list Z :=
  match l with
  | [] => []
  | x :: l' => if decide (x = k) then l' else x :: remove_first k l'
  end.

(** Modelled from the spec: [list.h] is not part of the sources.  Section 4.4
    of the specification: removal by node handle.  The C call names the node
    only; [o] is the list the node was taken from at both call sites. *)
Definition list_del (k o : Z) : M unit :=
  let* l := free_list o in
  set_free_list o (remove_first k l).

(** Modelled from the spec: [list.h] is not part of the sources. *)
Definition list_empty (o : Z) : M bool :=
  let* l := free_list o in
  ret (match l with [] => true | _ => false end).

(** [CLEAR(g_pages[k].order)]. *)
Definition CLEAR (k : Z) : M unit := set_order k UNSET.

(** ** [buddy_init] *)

(** A [for] loop over the values of [l]. *)
Fixpoint for_each (l : list Z) (body : Z → M unit) : M unit :=
  match l with
  | [] => ret tt
  | i :: l' => let* _ := body i in for_each l' body
  end.

(** The body of the first loop: the fields of [g_pages[i]]. *)
Definition init_page (i : Z) : M unit :=
  fun s => if valid_page i
           then Ok tt (mk_state (<[Z.to_nat i := mk_page i (PAGE_TO_ADDR i) UNSET]> (g_pages s))
                                (free_area s))
           else Fault.

Definition buddy_init : M unit :=
  let* _ := for_each (seqZ 0 N_PAGES) init_page in
  let* _ := for_each (seqZ MIN_ORDER (MAX_ORDER - MIN_ORDER + 1))
                     (fun i => set_free_list i []) in
  list_add 0 MAX_ORDER.

(** The static storage before [buddy_init]: the two arrays with their
    declared sizes.  [buddy_init] writes every page record and every list
    head from [MIN_ORDER] on before anything is read. *)
Definition boot_state : state :=
  mk_state (replicate (Z.to_nat N_PAGES) (mk_page 0 0 0))
           (replicate (Z.to_nat (MAX_ORDER + 1)) []).

(** The state a call returns in. *)
Definition state_of {A} (r : outcome A) : state :=
  match r with
  | Ok _ s => s
  | _ => boot_state
  end.

(** The state after [buddy_init]. *)
Definition init_state : state := state_of (buddy_init boot_state).

(** ** [buddy_split] and [buddy_alloc] *)

(** [buddy_split] with its call of [buddy_alloc] as a parameter. *)
Definition buddy_split (buddy_alloc : Z → M ptr) (i order : Z) : M ptr :=
  if decide (order = i) then
    let* l := free_list i in
    match l with
    | [] => fault
    | k :: _ =>
        let* _ := list_del k i in
        let* _ := set_order k order in
        let* left_temp := page_at k in
        ret (Mem (PAGE_TO_ADDR (index left_temp)))
    end
  else
    let* block_address := buddy_alloc (Z.shiftl 1 (order + 1)) in
    match block_address with
    | NULL => fault
    | Mem a =>
        let* left_temp := page_at (ADDR_TO_PAGE a) in
        let* _ := list_add (index left_temp + Z.shiftl 1 order / PAGE_SIZE) order in
        let* _ := set_order (ADDR_TO_PAGE a) order in
        ret (Mem (PAGE_TO_ADDR (index left_temp)))
    end.

(** The [for] loop of [buddy_alloc]: [n] iterations are left, at order [i]. *)
Fixpoint alloc_scan (split : Z → M ptr) (n : nat) (i : Z) : M ptr :=
  match n with
  | O => ret NULL
  | S n' =>
      let* e := list_empty i in
      if e then alloc_scan split n' (i + 1) else split i
  end.

Fixpoint buddy_alloc_n (fuel : nat) (size : Z) : M ptr :=
  match fuel with
  | O => out_of_fuel
  | S fuel' =>
      if decide (size ≤ 0) then ret NULL
      else
        alloc_scan (fun i => buddy_split (buddy_alloc_n fuel') i (REQ_ORDER size))
                   (Z.to_nat (MAX_ORDER + 1 - REQ_ORDER size)) (REQ_ORDER size)
  end.

(** One call of [buddy_alloc] per order from the requested one up. *)
Definition alloc_fuel : nat := Z.to_nat (MAX_ORDER - MIN_ORDER + 1).

Definition buddy_alloc (size : Z) : M ptr := buddy_alloc_n alloc_fuel size.

(** ** [find_buddy] and [buddy_free] *)

(** The loop of [find_buddy] over the members of a list.  A member is a
    page record, so that [current_page] is never null. *)
Fixpoint find_page (target : Z) (l : list Z) : M (option Z) :=
  match l with
  | [] => ret None
  | k :: l' =>
      let* current_page := page_at k in
      if decide (target = address current_page) then ret (Some k)
      else find_page target l'
  end.

Definition find_buddy (addr order : Z) : M (option Z) :=
  let* l := free_list order in
  find_page (BUDDY_ADDR addr order) l.

(** The [do ... while (order++ < MAX_ORDER)] loop of [buddy_free]. *)
Fixpoint buddy_free_loop (fuel : nat) (addr index order : Z) : M unit :=
  match fuel with
  | O => out_of_fuel
  | S fuel' =>
      let* current := find_buddy addr order in
      match current with
      | None =>
          let* _ := CLEAR index in
          list_add index order
      | Some k =>
          let* current_page := page_at k in
          if decide (BUDDY_ADDR addr order ≠ address current_page) then
            let* _ := CLEAR index in
            list_add index order
          else
            let addr' :=
              if decide (addr > address current_page) then address current_page else addr in
            let index' :=
              if decide (addr > address current_page)
              then ADDR_TO_PAGE (address current_page) else index in
            let* _ := list_del k order in
            if decide (order < MAX_ORDER)
            then buddy_free_loop fuel' addr' index' (order + 1)
            else ret tt
      end
  end.

Definition free_fuel : nat := Z.to_nat (MAX_ORDER - MIN_ORDER + 1).

Definition buddy_free (addr : ptr) : M unit :=
  match addr with
  | NULL => fault
  | Mem a =>
      let* p := page_at (ADDR_TO_PAGE a) in
      buddy_free_loop free_fuel a (ADDR_TO_PAGE a) (order p)
  end.

(** ** [buddy_dump] *)

Definition newline : string := String (Ascii.ascii_of_nat 10) EmptyString.

(** The text of one [printf("%d:%dK ", cnt, (1<<o)/1024)]. *)
Definition dump_entry (cnt : nat) (o : Z) : string :=
  pretty (Z.of_nat cnt) +:+ ":" +:+ pretty (Z.shiftl 1 o / 1024) +:+ "K ".

Fixpoint dump_orders (os : list Z) : M string :=
  match os with
  | [] => ret EmptyString
  | o :: os' =>
      let* l := free_list o in
      let* rest := dump_orders os' in
      ret (dump_entry (length l) o +:+ rest)
  end.

(** The text written to the standard output by [buddy_dump]. *)
Definition buddy_dump : M string :=
  let* body := dump_orders (seqZ MIN_ORDER (MAX_ORDER - MIN_ORDER + 1)) in
  ret (body +:+ newline).

(** ** Vocabulary of the specification *)

(** The members of the free list of order [o]; empty outside the array. *)
Definition fl (s : state) (o : Z) : list Z := default [] (free_area s !! Z.to_nat o).

(** The [order] field of page [k]. *)
Definition page_order (s : state) (k : Z) : option Z := order <$> g_pages s !! Z.to_nat k.

Definition upd_fl (o : Z) (l : list Z) (s : state) : state :=
  mk_state (g_pages s) (<[Z.to_nat o := l]> (free_area s)).

Definition upd_order (k o : Z) (s : state) : state :=
  mk_state (alter (fun p => mk_page (index p) (address p) o) (Z.to_nat k) (g_pages s))
           (free_area s).

(** What every state of the C program satisfies by construction: the two
    arrays have their declared sizes, the [index] and [address] fields hold
    what [buddy_init] wrote, and the free lists link page records. *)
Definition wf_state (s : state) : Prop :=
  length (free_area s) = Z.to_nat (MAX_ORDER + 1) ∧
  length (g_pages s) = Z.to_nat N_PAGES ∧
  g_pages s = zip_with (fun i o => mk_page i (PAGE_TO_ADDR i) o)
                       (seqZ 0 N_PAGES) (order <$> g_pages s) ∧
  Forall (Forall (fun k => 0 ≤ k < N_PAGES)) (free_area s).

Global Instance wf_state_dec s : Decision (wf_state s).
Proof. unfold wf_state. apply _. Defined.

(** A block: offset of its first byte from the arena base, and order. *)
Abbreviation block := (Z * Z)%type.

Definition in_block (x : Z) (b : block) : bool :=
  bool_decide (b.1 ≤ x < b.1 + 2 ^ b.2).

(** Number of blocks of [bs] that contain byte [x]. *)
Fixpoint cover (x : Z) (bs : list block) : Z :=
  match bs with
  | [] => 0
  | b :: bs' => (if in_block x b then 1 else 0) + cover x bs'
  end.

Definition blocks_of (o : Z) (l : list Z) : list block :=
  map (fun k => (PAGE_TO_ADDR k, o)) l.

Definition orders : list Z := seqZ MIN_ORDER (MAX_ORDER - MIN_ORDER + 1).

(** The blocks linked into the free lists. *)
Definition free_blocks (s : state) : list block :=
  flat_map (fun o => blocks_of o (fl s o)) orders.

Definition valid_block (b : block) : Prop :=
  MIN_ORDER ≤ b.2 ≤ MAX_ORDER ∧ 0 ≤ b.1 ∧ b.1 + 2 ^ b.2 ≤ 2 ^ MAX_ORDER ∧
  b.1 mod 2 ^ b.2 = 0.

Global Instance valid_block_dec b : Decision (valid_block b).
Proof. unfold valid_block. apply _. Defined.

(** [bs] covers every byte of the arena exactly once with aligned blocks. *)
Definition partition (bs : list block) : Prop :=
  Forall valid_block bs ∧ ∀ x, 0 ≤ x < 2 ^ MAX_ORDER → cover x bs = 1.

Definition disjoint (b1 b2 : block) : Prop :=
  b1.1 + 2 ^ b1.2 ≤ b2.1 ∨ b2.1 + 2 ^ b2.2 ≤ b1.1.

(** The first byte of the block of order [j] that contains [a]. *)
Definition round_down (a j : Z) : Z := a - a mod 2 ^ j.

(** The first page of [l] whose address is [target]: what [find_page]
    computes when every page record can be read. *)
Fixpoint find_addr (target : Z) (l : list Z) : option Z :=
  match l with
  | [] => None
  | k :: l' => if decide (target = PAGE_TO_ADDR k) then Some k else find_addr target l'
  end.

(** What [buddy_free] of the block at [a] of order [o0] has done between
    the states [s] and [s'] when it stopped at order [o]: at every order [j]
    from [o0] below [o] the buddy of the block that contains [a] was a member
    of the free list of order [j] and has been unlinked from it; the search
    at order [o] found no buddy; the block of order [o] that contains [a] is
    the new head of the free list of order [o]; it starts at the least of
    the addresses merged and consists of exactly the bytes of the freed
    block and of the buddies; its order field is cleared, and nothing else
    has changed. *)
Definition coalesced (a o0 o : Z) (s s' : state) : Prop :=
  let top := round_down a o in
  o0 ≤ o ≤ MAX_ORDER ∧
  (∀ j, o0 ≤ j < o →
     let bj := BUDDY_ADDR (round_down a j) j in
     bj = PAGE_TO_ADDR (ADDR_TO_PAGE bj) ∧ ADDR_TO_PAGE bj ∈ fl s j ∧
     fl s' j = remove_first (ADDR_TO_PAGE bj) (fl s j) ∧ top ≤ bj) ∧
  (∀ k, k ∈ fl s o → PAGE_TO_ADDR k ≠ BUDDY_ADDR top o) ∧
  fl s' o = ADDR_TO_PAGE top :: fl s o ∧
  (∀ j, MIN_ORDER ≤ j ≤ MAX_ORDER → ¬ (o0 ≤ j ≤ o) → fl s' j = fl s j) ∧
  top ≤ a ∧
  (∀ x, in_block x (top, o) = true ↔
        in_block x (a, o0) = true ∨
        ∃ j, o0 ≤ j < o ∧ in_block x (BUDDY_ADDR (round_down a j) j, j) = true) ∧
  g_pages s' = g_pages (upd_order (ADDR_TO_PAGE top) UNSET s).

(** *** Runs of the allocator

    A configuration pairs the allocator state with the live allocations:
    the blocks returned by [buddy_alloc] and not yet passed to [buddy_free],
    each with the order computed from the size of its request. *)
Record config : Type := mk_config {
  st : state;
  live : list block
}.

Inductive op : Type :=
| Alloc (size : Z)
| Free (addr : Z).

(** The first live block that starts at [a], and the other live blocks. *)
Fixpoint release (a : Z) (l : list block) : option (block * list block) :=
  match l with
  | [] => None
  | b :: l' =>
      if decide (b.1 = a) then Some (b, l')
      else match release a l' with
           | Some (b', r) => Some (b', b :: r)
           | None => None
           end
  end.

(** One call.  [Free a] is only defined on a live address: the contract of
    [buddy_free]. *)
Definition step (c : config) (o : op) : option config :=
  match o with
  | Alloc size =>
      match buddy_alloc size (st c) with
      | Ok (Mem a) s' => Some (mk_config s' ((a, REQ_ORDER size) :: live c))
      | Ok NULL s' => Some (mk_config s' (live c))
      | _ => None
      end
  | Free a =>
      match release a (live c) with
      | Some (_, rest) =>
          match buddy_free (Mem a) (st c) with
          | Ok _ s' => Some (mk_config s' rest)
          | _ => None
          end
      | None => None
      end
  end.

Fixpoint run (c : config) (ops : list op) : option config :=
  match ops with
  | [] => Some c
  | o :: ops' =>
      match step c o with
      | Some c' => run c' ops'
      | None => None
      end
  end.

Definition init_config : config := mk_config init_state [].

Definition reachable (c : config) : Prop := ∃ ops, run init_config ops = Some c.

(** The order fields of the page table: a field is [UNSET] or an order at
    which the page is aligned. *)
Definition orders_ok (s : state) : Prop :=
  ∀ k o, 0 ≤ k → page_order s k = Some o →
         o = UNSET ∨ (MIN_ORDER ≤ o ≤ MAX_ORDER ∧ PAGE_TO_ADDR k mod 2 ^ o = 0).

Definition Inv (c : config) : Prop :=
  wf_state (st c) ∧
  partition (free_blocks (st c) ++ live c) ∧
  (∀ b, b ∈ live c → page_order (st c) (ADDR_TO_PAGE b.1) = Some b.2) ∧
  orders_ok (st c).


(** Page [k] heads a block of some free list. *)
Definition free_head (s : state) (k : Z) : Prop := Exists (fun o => k ∈ fl s o) orders.

(** Page [k] heads a live allocation. *)
Definition live_head (c : config) (k : Z) : Prop :=
  Exists (fun b : block => ADDR_TO_PAGE b.1 = k) (live c).

(** Page [k] heads no block: it lies inside a larger one. *)
Definition nonexistent (c : config) (k : Z) : Prop :=
  0 ≤ k < N_PAGES ∧ ¬ free_head (st c) k ∧ ¬ live_head c k.

Global Instance nonexistent_dec c k : Decision (nonexistent c k).
Proof. unfold nonexistent, free_head, live_head. apply _. Defined.

(** ** The iterative allocation of the specification (section 4.2)

    [right_order] tells whether step 4 writes the order field of the right
    half, as the specification words it. *)


(** Step 2: the smallest order from [i] on, among [n], with a free block. *)
Fixpoint first_nonempty (s : state) (n : nat) (i : Z) : option Z :=
  match n with
  | O => None
  | S n' =>
      match fl s i with
      | [] => first_nonempty s n' (i + 1)
      | _ :: _ => Some i
      end
  end.

(** One split of step 4: the right half, at [A + 2^j], goes to the head of
    the free list of order [j]. *)
Definition split_step (right_order : bool) (A j : Z) (s : state) : state :=
  let right := ADDR_TO_PAGE (A + 2 ^ j) in
  let s1 := upd_fl j (right :: fl s j) s in
  if right_order then upd_order right j s1 else s1.

(** Step 4: the block at [A] is split [n] times, at the orders
    [j = r + n - 1] down to [r]. *)
Fixpoint split_down (right_order : bool) (A r : Z) (n : nat) (s : state) : state :=
  match n with
  | O => s
  | S n' => split_down right_order A r n' (split_step right_order A (r + Z.of_nat n') s)
  end.



(** ** Scenarios from the initial state *)

(** After [buddy_alloc(4096)]. *)
Definition page_allocated : state := state_of (buddy_alloc 4096 init_state).

(** Scenario 2: one allocation of 60 KiB. *)
Definition split_chain : state := state_of (buddy_alloc (60 * 1024) init_state).

(** Scenario 4: two allocations of 64 KiB, freed in the order of their
    allocation and in the reverse order. *)
Definition one_block : state := state_of (buddy_alloc 65536 init_state).

Definition two_blocks : config :=
  default init_config (run init_config [Alloc 65536; Alloc 65536]).

Definition first_freed : config := default init_config (run two_blocks [Free 0]).

Definition freed_in_order : config :=
  default init_config (run two_blocks [Free 0; Free 65536]).

Definition freed_in_reverse : config :=
  default init_config (run two_blocks [Free 65536; Free 0]).

(** Scenario 1: the whole arena allocated, a refused request, the arena
    freed. *)
Definition arena_allocated : state := state_of (buddy_alloc (1024 * 1024) init_state).

Definition arena_refused : state := state_of (buddy_alloc 4096 arena_allocated).

Definition arena_freed : state := state_of (buddy_free (Mem 0) arena_refused).

(** Scenario 5: 256 allocations of 4 KiB. *)
Definition all_pages_allocated : config :=
  default init_config (run init_config (replicate 256 (Alloc 4096))).

(** The text of the dump in scenario 1 of the specification. *)
Definition dump_pairs : string :=
  "0:4K 0:8K 0:16K 0:32K 0:64K 0:128K 0:256K 0:512K 1:1024K".

(** * Proofs *)

(** * Facts about the constants *)

Lemma PAGE_SIZE_eq : PAGE_SIZE = 4096.
Proof. reflexivity. Qed.

Lemma N_PAGES_eq : N_PAGES = 256.
Proof. reflexivity. Qed.

Lemma MIN_ORDER_eq : MIN_ORDER = 12.
Proof. reflexivity. Qed.

Lemma MAX_ORDER_eq : MAX_ORDER = 20.
Proof. reflexivity. Qed.

Lemma arena_size_eq : 2 ^ MAX_ORDER = 1048576.
Proof. reflexivity. Qed.

Lemma page_size_pow : PAGE_SIZE = 2 ^ MIN_ORDER.
Proof. reflexivity. Qed.

Ltac zlia :=
  pose proof N_PAGES_eq; pose proof MIN_ORDER_eq; pose proof MAX_ORDER_eq;
  pose proof PAGE_SIZE_eq; pose proof arena_size_eq; lia.

Lemma valid_page_iff k : valid_page k = true ↔ 0 ≤ k < N_PAGES.
Proof. unfold valid_page. rewrite andb_true_iff, Z.leb_le, Z.ltb_lt. tauto. Qed.

Lemma valid_order_iff o : valid_order o = true ↔ MIN_ORDER ≤ o ≤ MAX_ORDER.
Proof. unfold valid_order. rewrite andb_true_iff, !Z.leb_le. tauto. Qed.

Lemma addr_page_addr k : ADDR_TO_PAGE (PAGE_TO_ADDR k) = k.
Proof. unfold ADDR_TO_PAGE, PAGE_TO_ADDR. rewrite PAGE_SIZE_eq. apply Z.div_mul. lia. Qed.

Lemma REQ_ORDER_ge size : MIN_ORDER ≤ REQ_ORDER size.
Proof. unfold REQ_ORDER. lia. Qed.

Lemma REQ_ORDER_pow r : MIN_ORDER ≤ r → REQ_ORDER (Z.shiftl 1 (r + 1)) = r + 1.
Proof.
  intros Hr. unfold REQ_ORDER. rewrite Z.shiftl_1_l, Z.log2_up_pow2.
  - lia.
  - rewrite MIN_ORDER_eq in Hr. lia.
Qed.

(** * Well-formed states and the primitive operations *)

Section primitives.
Context (s : state) (Hwf : wf_state s).

Lemma wf_lookup_page k :
  0 ≤ k < N_PAGES →
  ∃ o, g_pages s !! Z.to_nat k = Some (mk_page k (PAGE_TO_ADDR k) o).
Proof using Hwf.
  intros Hk. destruct Hwf as (_ & Hlen & Heq & _).
  destruct (lookup_lt_is_Some_2 (g_pages s) (Z.to_nat k)) as [p Hp]; [zlia|].
  rewrite Heq in Hp. apply lookup_zip_with_Some in Hp as (i & o & -> & Hi & Ho).
  apply lookup_seqZ in Hi as [-> _]. exists o.
  rewrite Heq. apply lookup_zip_with_Some. exists (0 + Z.of_nat (Z.to_nat k)), o.
  split_and!.
  - replace (0 + Z.of_nat (Z.to_nat k)) with k by lia. done.
  - apply lookup_seqZ. zlia.
  - done.
Qed.

Lemma wf_fl_lookup o :
  0 ≤ o ≤ MAX_ORDER → free_area s !! Z.to_nat o = Some (fl s o).
Proof using Hwf.
  intros Ho. destruct Hwf as (Hlen & _).
  destruct (lookup_lt_is_Some_2 (free_area s) (Z.to_nat o)) as [l Hl]; [zlia|].
  unfold fl. by rewrite Hl.
Qed.

Lemma wf_members o k : k ∈ fl s o → 0 ≤ k < N_PAGES.
Proof using Hwf.
  destruct Hwf as (_ & _ & _ & Hall). unfold fl.
  destruct (free_area s !! Z.to_nat o) as [l|] eqn:Hl; simpl; [|by intros ?%elem_of_nil].
  intros Hk. eapply Forall_lookup_1 in Hall; [|done].
  by eapply Forall_forall in Hall.
Qed.

Lemma page_at_ok k :
  0 ≤ k < N_PAGES →
  ∃ o, page_at k s = Ok (mk_page k (PAGE_TO_ADDR k) o) s ∧ page_order s k = Some o.
Proof using Hwf.
  intros Hk. destruct (wf_lookup_page k Hk) as [o Ho]. exists o.
  unfold page_at, page_order. rewrite Ho.
  by rewrite (proj2 (valid_page_iff k) Hk).
Qed.

Lemma page_at_bad k : ¬ (0 ≤ k < N_PAGES) → page_at k s = Fault (A:=page_t).
Proof.
  intros Hk. unfold page_at. destruct (valid_page k) eqn:E; [|done].
  by apply valid_page_iff in E.
Qed.

Lemma set_order_ok k o :
  0 ≤ k < N_PAGES → set_order k o s = Ok tt (upd_order k o s).
Proof using Hwf.
  intros Hk. destruct (page_at_ok k Hk) as (o' & Hp & _).
  unfold set_order, bind. rewrite Hp. unfold upd_order. cbn [index address]. do 2 f_equal.
  destruct (wf_lookup_page k Hk) as [o'' Ho].
  apply list_eq. intros i. destruct (decide (i = Z.to_nat k)) as [->|Hne].
  - rewrite list_lookup_insert_eq by (by eapply lookup_lt_Some).
    rewrite list_lookup_alter_eq, Ho. done.
  - by rewrite list_lookup_insert_ne, list_lookup_alter_ne.
Qed.

Lemma set_order_bad k o : ¬ (0 ≤ k < N_PAGES) → set_order k o s = Fault (A:=unit).
Proof. intros Hk. unfold set_order, bind. by rewrite page_at_bad. Qed.

Lemma free_list_ok o :
  MIN_ORDER ≤ o ≤ MAX_ORDER → free_list o s = Ok (fl s o) s.
Proof using Hwf.
  intros Ho. unfold free_list. rewrite (proj2 (valid_order_iff o) Ho).
  rewrite wf_fl_lookup; [done|]. zlia.
Qed.

Lemma free_list_bad {A} o (f : list Z → M A) :
  ¬ (MIN_ORDER ≤ o ≤ MAX_ORDER) → bind (free_list o) f s = Fault.
Proof.
  intros Ho. unfold bind, free_list. destruct (valid_order o) eqn:E; [|done].
  by apply valid_order_iff in E.
Qed.

Lemma list_add_ok k o :
  0 ≤ k < N_PAGES → MIN_ORDER ≤ o ≤ MAX_ORDER →
  list_add k o s = Ok tt (upd_fl o (k :: fl s o) s).
Proof using Hwf.
  intros Hk Ho. destruct (page_at_ok k Hk) as (o' & Hp & _).
  unfold list_add, bind. by rewrite Hp, free_list_ok.
Qed.

Lemma list_add_bad k o : ¬ (0 ≤ k < N_PAGES) → list_add k o s = Fault (A:=unit).
Proof. intros Hk. unfold list_add, bind. by rewrite page_at_bad. Qed.

Lemma list_del_ok k o :
  MIN_ORDER ≤ o ≤ MAX_ORDER →
  list_del k o s = Ok tt (upd_fl o (remove_first k (fl s o)) s).
Proof using Hwf. intros Ho. unfold list_del, bind. by rewrite free_list_ok. Qed.

Lemma list_empty_ok o :
  MIN_ORDER ≤ o ≤ MAX_ORDER →
  list_empty o s = Ok (match fl s o with [] => true | _ => false end) s.
Proof using Hwf. intros Ho. unfold list_empty, bind. by rewrite free_list_ok. Qed.

(** ** State updates *)

Lemma fl_upd_fl o l o' :
  0 ≤ o ≤ MAX_ORDER → 0 ≤ o' →
  fl (upd_fl o l s) o' = if decide (o = o') then l else fl s o'.
Proof using Hwf.
  intros Ho Ho'. unfold fl, upd_fl. cbn [g_pages free_area]. destruct Hwf as (Hlen & _).
  destruct (decide (o = o')) as [->|Hne].
  - rewrite list_lookup_insert_eq by zlia. done.
  - rewrite list_lookup_insert_ne by zlia. done.
Qed.

Lemma fl_upd_order k v o : fl (upd_order k v s) o = fl s o.
Proof. done. Qed.

Lemma page_order_upd_fl o l k : page_order (upd_fl o l s) k = page_order s k.
Proof. done. Qed.

Lemma page_order_upd_order k v k' :
  0 ≤ k < N_PAGES → 0 ≤ k' →
  page_order (upd_order k v s) k' = if decide (k = k') then Some v else page_order s k'.
Proof using Hwf.
  intros Hk Hk'. unfold page_order, upd_order. cbn [g_pages free_area].
  destruct (decide (k = k')) as [<-|Hne].
  - destruct (wf_lookup_page k Hk) as [o Ho].
    by rewrite list_lookup_alter_eq, Ho.
  - rewrite list_lookup_alter_ne by lia. done.
Qed.

Lemma wf_upd_fl o l :
  Forall (fun k => 0 ≤ k < N_PAGES) l → wf_state (upd_fl o l s).
Proof using Hwf.
  intros Hl. destruct Hwf as (Hlen & Hlen' & Heq & Hall).
  unfold wf_state, upd_fl. cbn [g_pages free_area]. rewrite length_insert. split_and!; try done.
  destruct (decide (Z.to_nat o < length (free_area s))%nat).
  - apply Forall_insert; done.
  - rewrite list_insert_ge by lia. done.
Qed.

Lemma wf_upd_order k v : wf_state (upd_order k v s).
Proof using Hwf.
  destruct Hwf as (Hlen & Hlen' & Heq & Hall).
  unfold wf_state, upd_order. cbn [g_pages free_area]. rewrite length_alter. split_and!; try done.
  apply list_eq. intros i.
  rewrite lookup_zip_with, list_lookup_fmap.
  destruct (decide (i = Z.to_nat k)) as [->|Hne].
  - rewrite list_lookup_alter_eq.
    rewrite Heq at 1. rewrite lookup_zip_with, list_lookup_fmap.
    destruct (seqZ 0 N_PAGES !! Z.to_nat k); simpl; [|done].
    destruct (g_pages s !! Z.to_nat k); simpl; done.
  - rewrite !list_lookup_alter_ne by done.
    rewrite Heq at 1. by rewrite lookup_zip_with, list_lookup_fmap.
Qed.
End primitives.

Lemma buddy_init_state : buddy_init boot_state = Ok tt init_state.
Proof. vm_compute. reflexivity. Qed.

(** The page records and the free lists that [buddy_init] leaves. *)
Lemma init_state_eq :
  init_state =
  mk_state (map (fun i => mk_page i (PAGE_TO_ADDR i) UNSET) (seqZ 0 N_PAGES))
           (<[Z.to_nat MAX_ORDER := [0]]> (replicate (Z.to_nat (MAX_ORDER + 1)) [])).
Proof. vm_compute. reflexivity. Qed.

Lemma init_wf : wf_state init_state.
Proof. apply (bool_decide_unpack _). vm_compute. reflexivity. Qed.

(** * The closed form of [buddy_alloc] *)

Lemma first_nonempty_Some s n i i' :
  first_nonempty s n i = Some i' →
  i ≤ i' < i + Z.of_nat n ∧ fl s i' ≠ [] ∧ ∀ j, i ≤ j < i' → fl s j = [].
Proof.
  revert i. induction n as [|n IH]; intros i; [done|]. cbn [first_nonempty].
  destruct (fl s i) as [|k l] eqn:E.
  - intros (? & ? & Hj)%IH. split_and!; [lia..|done|].
    intros j Hj'. destruct (decide (j = i)) as [->|]; [done|]. apply Hj. lia.
  - intros [= <-]. split_and!; [lia..| by rewrite E |]. intros; lia.
Qed.

Lemma first_nonempty_None s n i :
  first_nonempty s n i = None → ∀ j, i ≤ j < i + Z.of_nat n → fl s j = [].
Proof.
  revert i. induction n as [|n IH]; intros i; [intros; lia|]. cbn [first_nonempty].
  destruct (fl s i) as [|k l] eqn:E; [|done].
  intros Hn j Hj. destruct (decide (j = i)) as [->|]; [done|]. apply (IH _ Hn). lia.
Qed.

Lemma first_nonempty_intro s n i i' :
  i ≤ i' < i + Z.of_nat n → fl s i' ≠ [] → (∀ j, i ≤ j < i' → fl s j = []) →
  first_nonempty s n i = Some i'.
Proof.
  revert i. induction n as [|n IH]; intros i Hi Hne Hlow; [lia|]. cbn [first_nonempty].
  destruct (decide (i = i')) as [->|Hii].
  - destruct (fl s i'); done.
  - rewrite Hlow by lia. apply IH; [lia|done|]. intros; apply Hlow; lia.
Qed.

Lemma alloc_scan_first split n i s :
  wf_state s → MIN_ORDER ≤ i → i + Z.of_nat n ≤ MAX_ORDER + 1 →
  alloc_scan split n i s =
  match first_nonempty s n i with
  | Some i' => split i' s
  | None => Ok NULL s
  end.
Proof.
  intros Hwf. revert i. induction n as [|n IH]; intros i Hi Hn; [done|].
  cbn [alloc_scan first_nonempty]. unfold bind. rewrite list_empty_ok by (done || lia).
  destruct (fl s i); [|done]. apply IH; lia.
Qed.

Lemma upd_order_twice k v w s : upd_order k w (upd_order k v s) = upd_order k w s.
Proof.
  unfold upd_order. cbn [g_pages free_area]. f_equal.
  rewrite list_alter_alter_eq. by apply list_alter_ext.
Qed.

Lemma split_down_snoc b A r n s :
  split_down b A r (S n) s = split_step b A r (split_down b A (r + 1) n s).
Proof.
  revert s. induction n as [|n IH]; intros s.
  - cbn [split_down]. by rewrite Z.add_0_r.
  - cbn [split_down] in *. rewrite IH.
    by replace (r + 1 + Z.of_nat n) with (r + Z.of_nat (S n)) by lia.
Qed.

Lemma pow_div_page j : MIN_ORDER ≤ j → 2 ^ j / PAGE_SIZE = 2 ^ (j - MIN_ORDER).
Proof.
  intros Hj. rewrite page_size_pow, Z.pow_sub_r; [done|lia|]. rewrite MIN_ORDER_eq in *. lia.
Qed.

Lemma pow_page_mul j : MIN_ORDER ≤ j → 2 ^ j = 2 ^ (j - MIN_ORDER) * PAGE_SIZE.
Proof.
  intros Hj. rewrite page_size_pow, <-Z.pow_add_r; [f_equal; lia|..];
    rewrite MIN_ORDER_eq in *; lia.
Qed.

Lemma right_page_eq k j :
  MIN_ORDER ≤ j → ADDR_TO_PAGE (PAGE_TO_ADDR k + 2 ^ j) = k + 2 ^ j / PAGE_SIZE.
Proof.
  intros Hj. unfold ADDR_TO_PAGE, PAGE_TO_ADDR.
  rewrite Z.div_add_l by (rewrite PAGE_SIZE_eq; lia). done.
Qed.

Lemma pow_div_page_pos j : MIN_ORDER ≤ j → 0 < 2 ^ j / PAGE_SIZE.
Proof.
  intros Hj. rewrite pow_div_page by done. apply Z.pow_pos_nonneg; lia.
Qed.

Lemma pow_div_page_mono j j' :
  MIN_ORDER ≤ j ≤ j' → 2 ^ j / PAGE_SIZE ≤ 2 ^ j' / PAGE_SIZE.
Proof.
  intros Hj. rewrite !pow_div_page by lia. apply Z.pow_le_mono_r; lia.
Qed.

Lemma right_half_addr k j :
  MIN_ORDER ≤ j → PAGE_TO_ADDR (ADDR_TO_PAGE (PAGE_TO_ADDR k + 2 ^ j)) = PAGE_TO_ADDR k + 2 ^ j.
Proof.
  intros Hj. rewrite right_page_eq, pow_div_page by done.
  unfold PAGE_TO_ADDR. rewrite (pow_page_mul j) by done. lia.
Qed.

Lemma right_half_valid k j j' :
  MIN_ORDER ≤ j ≤ j' → 0 ≤ k → k + 2 ^ j' / PAGE_SIZE < N_PAGES →
  0 ≤ ADDR_TO_PAGE (PAGE_TO_ADDR k + 2 ^ j) < N_PAGES.
Proof.
  intros Hj Hk Hlt. rewrite right_page_eq by lia.
  pose proof (pow_div_page_pos j ltac:(lia)). pose proof (pow_div_page_mono j j' Hj). lia.
Qed.

Lemma split_step_wf b k j j' s :
  wf_state s → MIN_ORDER ≤ j ≤ j' → 0 ≤ k → k + 2 ^ j' / PAGE_SIZE < N_PAGES →
  wf_state (split_step b (PAGE_TO_ADDR k) j s).
Proof.
  intros Hwf Hj Hk Hlt. unfold split_step.
  assert (wf_state (upd_fl j (ADDR_TO_PAGE (PAGE_TO_ADDR k + 2 ^ j) :: fl s j) s)).
  { apply wf_upd_fl; [done|]. constructor; [by eapply right_half_valid|].
    apply Forall_forall. intros x Hx. by eapply wf_members. }
  destruct b; [by apply wf_upd_order | done].
Qed.

Lemma split_down_wf b k r n s :
  wf_state s → MIN_ORDER ≤ r → 0 ≤ k →
  (n ≠ 0%nat → k + 2 ^ (r + Z.of_nat n - 1) / PAGE_SIZE < N_PAGES) →
  wf_state (split_down b (PAGE_TO_ADDR k) r n s).
Proof.
  revert s. induction n as [|n IH]; intros s Hwf Hr Hk Hn; [done|].
  specialize (Hn ltac:(done)). replace (r + Z.of_nat (S n) - 1) with (r + Z.of_nat n) in Hn by lia.
  cbn [split_down]. apply IH; [|done..|].
  - eapply split_step_wf; [done| |done..]. lia.
  - intros Hn0. pose proof (pow_div_page_mono (r + Z.of_nat n - 1) (r + Z.of_nat n)). lia.
Qed.

Lemma split_closed d : ∀ n r s k l,
  wf_state s → MIN_ORDER ≤ r → r + Z.of_nat d ≤ MAX_ORDER → (d ≤ n)%nat →
  fl s (r + Z.of_nat d) = k :: l →
  (∀ j, r ≤ j < r + Z.of_nat d → fl s j = []) →
  buddy_split (buddy_alloc_n n) (r + Z.of_nat d) r s =
    if decide (d ≠ 0%nat → k + 2 ^ (r + Z.of_nat d - 1) / PAGE_SIZE < N_PAGES)
    then Ok (Mem (PAGE_TO_ADDR k))
            (upd_order k r
               (split_down false (PAGE_TO_ADDR k) r d (upd_fl (r + Z.of_nat d) l s)))
    else Fault.
Proof.
  induction d as [|d IH]; intros n r s k l Hwf Hr Hi Hn Hfl Hlow.
  - rewrite Z.add_0_r in *. unfold buddy_split.
    destruct (decide (r = r)) as [_|]; [|done].
    destruct (decide _) as [_|[]]; [|done].
    assert (Hk : 0 ≤ k < N_PAGES) by (eapply (wf_members s Hwf r); rewrite Hfl; left).
    assert (Hwf1 : wf_state (upd_fl r l s)).
    { apply wf_upd_fl; [done|]. apply Forall_forall. intros x Hx.
      eapply (wf_members s Hwf r). rewrite Hfl. by right. }
    unfold bind. rewrite free_list_ok, Hfl by (done || lia).
    rewrite list_del_ok, Hfl by (done || lia). cbn [remove_first].
    destruct (decide (k = k)) as [_|]; [|done].
    rewrite set_order_ok by done.
    destruct (page_at_ok _ (wf_upd_order _ Hwf1 k r) k Hk) as (o & -> & _). done.
  - assert (Hk : 0 ≤ k < N_PAGES) by (eapply (wf_members s Hwf); rewrite Hfl; left).
    destruct n as [|n]; [lia|].
    assert (Hi' : r + Z.of_nat (S d) = (r + 1) + Z.of_nat d) by lia.
    unfold buddy_split. destruct (decide (r = r + Z.of_nat (S d))) as [|_]; [lia|].
    unfold bind at 1. cbn [buddy_alloc_n].
    destruct (decide (Z.shiftl 1 (r + 1) ≤ 0)) as [Hneg|_].
    { rewrite Z.shiftl_1_l in Hneg. pose proof (Z.pow_pos_nonneg 2 (r + 1)). zlia. }
    rewrite REQ_ORDER_pow by done.
    rewrite alloc_scan_first by (done || lia).
    rewrite (first_nonempty_intro s _ (r + 1) (r + Z.of_nat (S d)));
      [| lia | by rewrite Hfl | intros; apply Hlow; lia].
    rewrite Hi' in *.
    rewrite (IH n (r + 1) s k l) by (done || lia || (intros; apply Hlow; lia)).
    replace (r + 1 + Z.of_nat d - 1) with (r + Z.of_nat d) by lia.
    destruct (decide (d ≠ 0%nat → _)) as [Hd|Hd].
    + assert (Hwf1 : wf_state (upd_order k (r + 1)
                (split_down false (PAGE_TO_ADDR k) (r + 1) d (upd_fl (r + 1 + Z.of_nat d) l s)))).
      { apply wf_upd_order, split_down_wf; [|lia..|].
        - apply wf_upd_fl; [done|]. apply Forall_forall. intros x Hx.
          eapply (wf_members s Hwf). rewrite Hfl. by right.
        - intros Hd0. replace (r + 1 + Z.of_nat d - 1) with (r + Z.of_nat d) by lia. auto. }
      set (s1 := upd_order k (r + 1) _) in *.
      rewrite addr_page_addr. unfold bind at 1.
      destruct (page_at_ok s1 Hwf1 k Hk) as (o & -> & _). cbn [index].
      rewrite Z.shiftl_1_l. unfold bind at 1.
      destruct (decide (S d ≠ 0%nat → _)) as [Hd'|Hd'].
      * specialize (Hd' ltac:(done)).
        assert (Hright : 0 ≤ k + 2 ^ r / PAGE_SIZE < N_PAGES).
        { pose proof (pow_div_page_pos r Hr).
          pose proof (pow_div_page_mono r (r + Z.of_nat d) ltac:(lia)). lia. }
        rewrite list_add_ok by (done || lia).
        unfold bind. rewrite set_order_ok by (done || (apply wf_upd_fl; [done|]; constructor;
          [done | apply Forall_forall; intros x Hx; by eapply wf_members])).
        unfold ret. f_equal. rewrite split_down_snoc. unfold split_step.
        rewrite right_page_eq by done. subst s1.
        rewrite fl_upd_order.
        change (upd_fl r ?l (upd_order k ?v ?s)) with (upd_order k v (upd_fl r l s)).
        by rewrite upd_order_twice.
      * rewrite list_add_bad; [done|]. intros Hright. apply Hd'. intros _.
        destruct d as [|d']; [|by apply Hd]. rewrite Z.add_0_r. lia.
    + unfold bind. destruct (decide (S d ≠ 0%nat → _)) as [Hd'|Hd']; [|done].
      destruct Hd. intros _. by apply Hd'.
Qed.

(** [buddy_alloc] in closed form, for every budget that covers the orders
    from the requested one to [MAX_ORDER]. *)
Lemma buddy_alloc_n_closed n size s :
  wf_state s → (Z.to_nat (MAX_ORDER - REQ_ORDER size) ≤ n)%nat →
  buddy_alloc_n (S n) size s =
  if decide (size ≤ 0) then Ok NULL s
  else
    match first_nonempty s (Z.to_nat (MAX_ORDER + 1 - REQ_ORDER size)) (REQ_ORDER size) with
    | None => Ok NULL s
    | Some i =>
        match fl s i with
        | [] => Fault
        | k :: l =>
            if decide (REQ_ORDER size < i → k + 2 ^ (i - 1) / PAGE_SIZE < N_PAGES)
            then Ok (Mem (PAGE_TO_ADDR k))
                    (upd_order k (REQ_ORDER size)
                       (split_down false (PAGE_TO_ADDR k) (REQ_ORDER size)
                          (Z.to_nat (i - REQ_ORDER size)) (upd_fl i l s)))
            else Fault
        end
    end.
Proof.
  intros Hwf Hn. cbn [buddy_alloc_n]. destruct (decide (size ≤ 0)); [done|].
  pose proof (REQ_ORDER_ge size) as Hr. set (r := REQ_ORDER size) in *.
  destruct (decide (r ≤ MAX_ORDER)) as [Hle|Hgt].
  - rewrite alloc_scan_first by (done || lia).
    destruct (first_nonempty _ _ _) as [i|] eqn:Hfirst; [|done].
    apply first_nonempty_Some in Hfirst as (Hi & Hne & Hlow).
    destruct (fl s i) as [|k l] eqn:Hfl; [done|].
    replace i with (r + Z.of_nat (Z.to_nat (i - r))) at 1 by lia.
    rewrite (split_closed _ n r s k l); [| done | done | lia | lia | | ].
    + replace (r + Z.of_nat (Z.to_nat (i - r)) - 1) with (i - 1) by lia.
      destruct (decide (Z.to_nat (i - r) ≠ 0%nat → _)) as [H1|H1];
        destruct (decide (r < i → _)) as [H2|H2].
      * by replace (r + Z.of_nat (Z.to_nat (i - r))) with i by lia.
      * destruct H2. intros ?. apply H1. lia.
      * destruct H1. intros ?. apply H2. lia.
      * done.
    + by replace (r + Z.of_nat (Z.to_nat (i - r))) with i by lia.
    + intros j Hj. apply Hlow. lia.
  - replace (Z.to_nat (MAX_ORDER + 1 - r)) with 0%nat by lia. done.
Qed.

Lemma buddy_alloc_closed size s :
  wf_state s →
  buddy_alloc size s =
  if decide (size ≤ 0) then Ok NULL s
  else
    match first_nonempty s (Z.to_nat (MAX_ORDER + 1 - REQ_ORDER size)) (REQ_ORDER size) with
    | None => Ok NULL s
    | Some i =>
        match fl s i with
        | [] => Fault
        | k :: l =>
            if decide (REQ_ORDER size < i → k + 2 ^ (i - 1) / PAGE_SIZE < N_PAGES)
            then Ok (Mem (PAGE_TO_ADDR k))
                    (upd_order k (REQ_ORDER size)
                       (split_down false (PAGE_TO_ADDR k) (REQ_ORDER size)
                          (Z.to_nat (i - REQ_ORDER size)) (upd_fl i l s)))
            else Fault
        end
    end.
Proof.
  intros Hwf. apply (buddy_alloc_n_closed (Z.to_nat (MAX_ORDER - MIN_ORDER)) size s Hwf).
  pose proof (REQ_ORDER_ge size). lia.
Qed.

(** The budget of [buddy_alloc] is never used up, and a larger one changes
    nothing. *)
Lemma buddy_alloc_fuel n size s :
  wf_state s → (Z.to_nat (MAX_ORDER - MIN_ORDER) ≤ n)%nat →
  buddy_alloc_n (S n) size s = buddy_alloc size s.
Proof.
  intros Hwf Hn. rewrite buddy_alloc_closed by done. apply buddy_alloc_n_closed; [done|].
  pose proof (REQ_ORDER_ge size). lia.
Qed.

Lemma buddy_alloc_terminates size s : wf_state s → buddy_alloc size s ≠ OutOfFuel.
Proof.
  intros Hwf. rewrite buddy_alloc_closed by done.
  destruct (decide (size ≤ 0)); [done|].
  destruct (first_nonempty _ _ _); [|done].
  destruct (fl s _); [done|]. by destruct (decide _).
Qed.

(** * Arithmetic of blocks and buddies *)

Lemma pow_succ j : 0 ≤ j → 2 ^ (j + 1) = 2 * 2 ^ j.
Proof. intros Hj. rewrite Z.pow_add_r by lia. lia. Qed.

Lemma pow_pos j : 0 ≤ j → 0 < 2 ^ j.
Proof. intros Hj. by apply Z.pow_pos_nonneg. Qed.

Lemma mod_pow_succ a j :
  0 ≤ j → a mod 2 ^ (j + 1) = a mod 2 ^ j + 2 ^ j * ((a / 2 ^ j) mod 2).
Proof.
  intros Hj. rewrite pow_succ, (Z.mul_comm 2) by done.
  apply Z.rem_mul_r; [|lia]. pose proof (pow_pos j Hj). lia.
Qed.

Lemma mod_pow_le a j j' : 0 ≤ j ≤ j' → a mod 2 ^ j' = 0 → a mod 2 ^ j = 0.
Proof.
  intros Hj Ha. replace j' with ((j' - j) + j) in Ha by lia.
  rewrite Z.pow_add_r in Ha by lia.
  pose proof (pow_pos j ltac:(lia)). pose proof (pow_pos (j' - j) ltac:(lia)).
  apply Z.mod_divide in Ha as [q Hq]; [|lia].
  apply Z.mod_divide; [lia|]. exists (q * 2 ^ (j' - j)). lia.
Qed.

Lemma lxor_pow2 a j :
  0 ≤ j →
  Z.lxor a (2 ^ j) = if Z.testbit a j then a - 2 ^ j else a + 2 ^ j.
Proof.
  intros Hj.
  assert (Hadd : Z.lxor a (2 ^ j) + 2 ^ j * (if Z.testbit a j then 1 else -1) = a).
  { destruct (Z.testbit a j) eqn:Hbit.
    - rewrite Z.mul_1_r, Z.add_nocarry_lxor.
      + by rewrite Z.lxor_assoc, Z.lxor_nilpotent, Z.lxor_0_r.
      + apply Z.bits_inj'. intros m Hm.
        rewrite Z.land_spec, Z.lxor_spec, Z.bits_0, Z.pow2_bits_eqb by done.
        destruct (Z.eqb_spec j m) as [<-|]; [by rewrite Hbit | by rewrite andb_false_r].
    - rewrite <-(Z.add_nocarry_lxor a (2 ^ j)); [lia|].
      apply Z.bits_inj'. intros m Hm.
      rewrite Z.land_spec, Z.bits_0, Z.pow2_bits_eqb by done.
      destruct (Z.eqb_spec j m) as [<-|]; [by rewrite Hbit | by rewrite andb_false_r]. }
  destruct (Z.testbit a j); lia.
Qed.

(** The buddy of an aligned block is the other half of the block of the
    next order that contains it. *)
Lemma buddy_cases a j :
  0 ≤ j → a mod 2 ^ j = 0 →
  (a mod 2 ^ (j + 1) = 0 ∧ BUDDY_ADDR a j = a + 2 ^ j) ∨
  (a mod 2 ^ (j + 1) = 2 ^ j ∧ BUDDY_ADDR a j = a - 2 ^ j).
Proof.
  intros Hj Ha. unfold BUDDY_ADDR. rewrite Z.shiftl_1_l, lxor_pow2 by done.
  rewrite mod_pow_succ, Ha by done.
  destruct (Z.testbit a j) eqn:Hbit.
  - apply Z.testbit_true in Hbit; [|done]. right. rewrite Hbit. lia.
  - apply Z.testbit_false in Hbit; [|done]. left. rewrite Hbit. lia.
Qed.

Lemma round_down_div a j : 0 ≤ j → round_down a j = 2 ^ j * (a / 2 ^ j).
Proof.
  intros Hj. unfold round_down. pose proof (pow_pos j Hj).
  rewrite Z.mod_eq by lia. lia.
Qed.

Lemma round_down_aligned a j : 0 ≤ j → a mod 2 ^ j = 0 → round_down a j = a.
Proof. intros Hj Ha. unfold round_down. lia. Qed.

Lemma round_down_mod a j : 0 ≤ j → round_down a j mod 2 ^ j = 0.
Proof.
  intros Hj. rewrite round_down_div, Z.mul_comm by done. apply Z.mod_mul.
  pose proof (pow_pos j Hj). lia.
Qed.

Lemma round_down_bounds a j : 0 ≤ j → round_down a j ≤ a < round_down a j + 2 ^ j.
Proof.
  intros Hj. unfold round_down. pose proof (pow_pos j Hj).
  pose proof (Z.mod_pos_bound a (2 ^ j)). lia.
Qed.

Lemma round_down_round_down a j j' :
  0 ≤ j ≤ j' → round_down (round_down a j) j' = round_down a j'.
Proof.
  intros Hj. rewrite !(round_down_div _ j') by lia. f_equal.
  rewrite (round_down_div a j) by lia.
  replace j' with (j + (j' - j)) by lia. rewrite Z.pow_add_r by lia.
  pose proof (pow_pos j ltac:(lia)). pose proof (pow_pos (j' - j) ltac:(lia)).
  rewrite <-!Z.div_div by lia. f_equal.
  rewrite Z.mul_comm, Z.div_mul by lia. done.
Qed.

Lemma round_down_mono a j j' : 0 ≤ j ≤ j' → round_down a j' ≤ round_down a j.
Proof.
  intros Hj. rewrite <-(round_down_round_down a j j') by done.
  apply round_down_bounds. lia.
Qed.

Lemma round_down_succ a j :
  0 ≤ j → a mod 2 ^ j = 0 →
  round_down a (j + 1) = (if decide (a > BUDDY_ADDR a j) then BUDDY_ADDR a j else a).
Proof.
  intros Hj Ha. unfold round_down. pose proof (pow_pos j Hj).
  destruct (buddy_cases a j Hj Ha) as [[-> ->]|[-> ->]]; case_decide; lia.
Qed.

(** * Counting the blocks over a byte *)

Lemma cover_app x l1 l2 : cover x (l1 ++ l2) = cover x l1 + cover x l2.
Proof. induction l1 as [|b l1 IH]; cbn [cover app]; lia. Qed.

Lemma cover_nonneg x l : 0 ≤ cover x l.
Proof. induction l as [|b l IH]; cbn [cover]; [done|]. destruct (in_block x b); lia. Qed.

Lemma cover_single x b : cover x [b] = if in_block x b then 1 else 0.
Proof. cbn [cover]. destruct (in_block x b); lia. Qed.

Lemma cover_cons x b l : cover x (b :: l) = cover x [b] + cover x l.
Proof. cbn [cover]. lia. Qed.

Lemma cover_elem x b l : b ∈ l → in_block x b = true → 1 ≤ cover x l.
Proof.
  induction 1 as [b l|b b' l Hin IH]; intros Hx; cbn [cover].
  - rewrite Hx. pose proof (cover_nonneg x l). lia.
  - specialize (IH Hx). destruct (in_block x b'); lia.
Qed.

Lemma in_block_iff x b : in_block x b = true ↔ b.1 ≤ x < b.1 + 2 ^ b.2.
Proof. unfold in_block. by rewrite bool_decide_eq_true. Qed.

Lemma cover_split x A j :
  0 ≤ j → cover x [(A, j + 1)] = cover x [(A, j)] + cover x [(A + 2 ^ j, j)].
Proof.
  intros Hj. rewrite !cover_single. unfold in_block. cbn [fst snd].
  rewrite pow_succ by done. pose proof (pow_pos j Hj).
  repeat case_bool_decide; lia.
Qed.

Lemma cover_merge x a j :
  0 ≤ j → a mod 2 ^ j = 0 →
  cover x [(round_down a (j + 1), j + 1)] = cover x [(a, j)] + cover x [(BUDDY_ADDR a j, j)].
Proof.
  intros Hj Ha. rewrite !cover_single. unfold in_block, round_down. cbn [fst snd].
  pose proof (pow_pos j Hj).
  destruct (buddy_cases a j Hj Ha) as [[-> ->]|[-> ->]];
    rewrite pow_succ by done; repeat case_bool_decide; lia.
Qed.

Lemma cover_blocks_remove x o k l :
  k ∈ l →
  cover x (blocks_of o l) =
  cover x [(PAGE_TO_ADDR k, o)] + cover x (blocks_of o (remove_first k l)).
Proof.
  induction l as [|k' l IH]; [by intros ?%elem_of_nil|].
  intros Hk. cbn [remove_first]. destruct (decide (k' = k)) as [->|Hne].
  - unfold blocks_of. cbn [map]. by rewrite cover_cons.
  - apply elem_of_cons in Hk as [->|Hk]; [done|].
    unfold blocks_of in *. cbn [map]. rewrite cover_cons, (cover_cons _ _ (map _ _)), IH by done.
    lia.
Qed.

Lemma elem_of_remove_first k k' l : k' ∈ remove_first k l → k' ∈ l.
Proof.
  induction l as [|x l IH]; [done|]. cbn [remove_first].
  destruct (decide (x = k)); [by right|].
  intros [->|?]%elem_of_cons; [left | right; auto].
Qed.

(** * The blocks of the free lists *)

Lemma elem_of_orders o : o ∈ orders ↔ MIN_ORDER ≤ o ≤ MAX_ORDER.
Proof. unfold orders. rewrite elem_of_seqZ. lia. Qed.

Lemma elem_of_blocks_of b o l :
  b ∈ blocks_of o l ↔ b.2 = o ∧ ∃ k, k ∈ l ∧ b.1 = PAGE_TO_ADDR k.
Proof.
  unfold blocks_of. rewrite list_elem_of_fmap. split.
  - intros (k & -> & Hk). eauto.
  - intros (<- & k & Hk & Hb). exists k. split; [|done]. destruct b; simpl in *; congruence.
Qed.

Lemma elem_of_free_blocks s b :
  b ∈ free_blocks s ↔
  MIN_ORDER ≤ b.2 ≤ MAX_ORDER ∧ ∃ k, k ∈ fl s b.2 ∧ b.1 = PAGE_TO_ADDR k.
Proof.
  unfold free_blocks. rewrite list_elem_of_In, in_flat_map. split.
  - intros (o & Ho%list_elem_of_In%elem_of_orders & Hb%list_elem_of_In%elem_of_blocks_of).
    destruct Hb as [<- ?]. done.
  - intros (Ho & Hk). exists b.2. rewrite <-!list_elem_of_In, elem_of_orders, elem_of_blocks_of.
    done.
Qed.

Lemma free_block_intro s k o :
  MIN_ORDER ≤ o ≤ MAX_ORDER → k ∈ fl s o → (PAGE_TO_ADDR k, o) ∈ free_blocks s.
Proof. intros Ho Hk. apply elem_of_free_blocks. cbn [fst snd]. eauto. Qed.

(** Replacing one free list changes the count by the blocks of that list. *)
Lemma cover_flat_map_upd x s o l os :
  wf_state s → 0 ≤ o ≤ MAX_ORDER → NoDup os → Forall (fun o' => 0 ≤ o') os →
  cover x (flat_map (fun o' => blocks_of o' (fl (upd_fl o l s) o')) os) =
  cover x (flat_map (fun o' => blocks_of o' (fl s o')) os)
  + (if decide (o ∈ os) then cover x (blocks_of o l) - cover x (blocks_of o (fl s o)) else 0).
Proof.
  intros Hwf Ho. induction os as [|o' os IH]; intros Hnd Hpos.
  - cbn [flat_map cover]. case_decide as Hin; [by apply elem_of_nil in Hin | lia].
  - apply NoDup_cons in Hnd as [Hnotin Hnd]. apply Forall_cons in Hpos as [Ho' Hpos].
    cbn [flat_map]. rewrite !cover_app, IH, fl_upd_fl by done.
    destruct (decide (o = o')) as [<-|Hne].
    + destruct (decide (o ∈ o :: os)) as [_|[]]; [|left].
      destruct (decide (o ∈ os)); [done|]. lia.
    + destruct (decide (o ∈ os)) as [Hin|Hin].
      * destruct (decide (o ∈ o' :: os)) as [_|[]]; [lia|by right].
      * destruct (decide (o ∈ o' :: os)) as [[?|?]%elem_of_cons|_]; [done..|lia].
Qed.

Lemma cover_free_blocks_upd x s o l :
  wf_state s → MIN_ORDER ≤ o ≤ MAX_ORDER →
  cover x (free_blocks (upd_fl o l s)) =
  cover x (free_blocks s) + cover x (blocks_of o l) - cover x (blocks_of o (fl s o)).
Proof.
  intros Hwf Ho. unfold free_blocks. rewrite cover_flat_map_upd; [|done|zlia|..].
  - rewrite decide_True by (by apply elem_of_orders). lia.
  - apply NoDup_seqZ.
  - apply Forall_forall. intros o' Ho'%elem_of_orders. zlia.
Qed.

Lemma free_blocks_upd_order s k v : free_blocks (upd_order k v s) = free_blocks s.
Proof. done. Qed.

Lemma elem_of_free_blocks_upd s o l b :
  wf_state s → MIN_ORDER ≤ o ≤ MAX_ORDER →
  b ∈ free_blocks (upd_fl o l s) →
  b ∈ blocks_of o l ∨ b ∈ free_blocks s.
Proof.
  intros Hwf Ho (Hb & k & Hk & Hbk)%elem_of_free_blocks.
  rewrite fl_upd_fl in Hk by (done || zlia).
  destruct (decide (o = b.2)) as [Heq|Hne].
  - left. apply elem_of_blocks_of. eauto.
  - right. apply elem_of_free_blocks. eauto.
Qed.

Lemma valid_free_blocks_upd s o l :
  wf_state s → MIN_ORDER ≤ o ≤ MAX_ORDER →
  Forall valid_block (free_blocks s) → Forall valid_block (blocks_of o l) →
  Forall valid_block (free_blocks (upd_fl o l s)).
Proof.
  intros Hwf Ho Hs Hl. apply Forall_forall. intros b Hb.
  apply elem_of_free_blocks_upd in Hb as [Hb|Hb]; [| |done..].
  - by eapply Forall_forall in Hl.
  - by eapply Forall_forall in Hs.
Qed.

Lemma valid_blocks_of_sub s o l :
  MIN_ORDER ≤ o ≤ MAX_ORDER →
  Forall valid_block (free_blocks s) → (∀ k, k ∈ l → k ∈ fl s o) →
  Forall valid_block (blocks_of o l).
Proof.
  intros Ho Hs Hl. apply Forall_forall. intros b (Hb & k & Hk & Hbk)%elem_of_blocks_of.
  eapply Forall_forall in Hs; [done|]. apply elem_of_free_blocks. rewrite Hb. eauto.
Qed.

(** ** Consequences of a partition *)

Lemma partition_unique x l1 b l2 b' :
  cover x (l1 ++ b :: l2) = 1 → in_block x b = true →
  b' ∈ l1 ++ l2 → in_block x b' = false.
Proof.
  intros Hc Hb Hb'. rewrite cover_app, cover_cons, cover_single, Hb in Hc.
  destruct (in_block x b') eqn:E; [|done].
  pose proof (cover_elem x b' (l1 ++ l2) Hb' E) as Hge. rewrite cover_app in Hge. lia.
Qed.

Lemma valid_block_in b : valid_block b → in_block b.1 b = true ∧ 0 ≤ b.1 < 2 ^ MAX_ORDER.
Proof.
  intros (Ho & H0 & Hend & _). rewrite in_block_iff.
  pose proof (pow_pos b.2 ltac:(zlia)). lia.
Qed.

Lemma valid_block_page b :
  valid_block b → b.1 = PAGE_TO_ADDR (ADDR_TO_PAGE b.1) ∧ 0 ≤ ADDR_TO_PAGE b.1 < N_PAGES.
Proof.
  intros (Ho & H0 & Hend & Hmod).
  apply (mod_pow_le _ MIN_ORDER) in Hmod; [|zlia].
  pose proof (pow_pos b.2 ltac:(zlia)).
  unfold PAGE_TO_ADDR, ADDR_TO_PAGE. rewrite page_size_pow.
  pose proof (Z.div_mod b.1 (2 ^ MIN_ORDER) ltac:(done)) as Hdm. rewrite Hmod in Hdm.
  split; [lia|]. change (2 ^ MIN_ORDER) with 4096 in *.
  change (2 ^ MAX_ORDER) with 1048576 in *. rewrite N_PAGES_eq.
  split; [apply Z.div_pos; lia | apply Z.div_lt_upper_bound; lia].
Qed.

(** * The splits of an allocation *)

Lemma fl_split_step b A j s j' :
  wf_state s → 0 ≤ j ≤ MAX_ORDER → 0 ≤ j' →
  fl (split_step b A j s) j' =
  if decide (j = j') then ADDR_TO_PAGE (A + 2 ^ j) :: fl s j' else fl s j'.
Proof.
  intros Hwf Hj Hj'. unfold split_step.
  destruct b; rewrite ?fl_upd_order, fl_upd_fl by done; by case_decide; subst.
Qed.

Lemma fl_split_down b k r n s j :
  wf_state s → MIN_ORDER ≤ r → r + Z.of_nat n ≤ MAX_ORDER + 1 → 0 ≤ k →
  (n ≠ 0%nat → k + 2 ^ (r + Z.of_nat n - 1) / PAGE_SIZE < N_PAGES) → 0 ≤ j →
  fl (split_down b (PAGE_TO_ADDR k) r n s) j =
  if decide (r ≤ j < r + Z.of_nat n)
  then ADDR_TO_PAGE (PAGE_TO_ADDR k + 2 ^ j) :: fl s j else fl s j.
Proof.
  revert s. induction n as [|n IH]; intros s Hwf Hr Hn Hk Hright Hj.
  - cbn [split_down]. case_decide; [lia|done].
  - specialize (Hright ltac:(done)).
    replace (r + Z.of_nat (S n) - 1) with (r + Z.of_nat n) in Hright by lia.
    cbn [split_down].
    rewrite IH; [| |done|lia|done| |done].
    + rewrite fl_split_step by (done || zlia).
      repeat case_decide; try lia; by subst.
    + eapply split_step_wf; [done| |done..]. lia.
    + intros Hn0. pose proof (pow_div_page_mono (r + Z.of_nat n - 1) (r + Z.of_nat n)). lia.
Qed.

Lemma g_pages_split_down_false A r n s :
  g_pages (split_down false A r n s) = g_pages s.
Proof. revert s. induction n as [|n IH]; intros s; [done|]. cbn [split_down]. by rewrite IH. Qed.

Lemma page_order_split_down_false A r n s k :
  page_order (split_down false A r n s) k = page_order s k.
Proof. unfold page_order. by rewrite g_pages_split_down_false. Qed.

Lemma cover_split_step x b k j j' s :
  wf_state s → MIN_ORDER ≤ j ≤ j' → j ≤ MAX_ORDER →
  cover x (free_blocks (split_step b (PAGE_TO_ADDR k) j s)) =
  cover x (free_blocks s) + cover x [(PAGE_TO_ADDR k + 2 ^ j, j)].
Proof.
  intros Hwf Hj Hmax. unfold split_step.
  assert (cover x (free_blocks
            (upd_fl j (ADDR_TO_PAGE (PAGE_TO_ADDR k + 2 ^ j) :: fl s j) s)) =
          cover x (free_blocks s) + cover x [(PAGE_TO_ADDR k + 2 ^ j, j)]) as Heq.
  { rewrite cover_free_blocks_upd by (done || lia).
    unfold blocks_of at 1. cbn [map]. rewrite cover_cons, right_half_addr by lia.
    fold (blocks_of j (fl s j)). lia. }
  destruct b; [by rewrite free_blocks_upd_order | done].
Qed.

Lemma cover_split_down x b k r n s :
  wf_state s → MIN_ORDER ≤ r → r + Z.of_nat n ≤ MAX_ORDER → 0 ≤ k →
  (n ≠ 0%nat → k + 2 ^ (r + Z.of_nat n - 1) / PAGE_SIZE < N_PAGES) →
  cover x (free_blocks (split_down b (PAGE_TO_ADDR k) r n s)) + cover x [(PAGE_TO_ADDR k, r)] =
  cover x (free_blocks s) + cover x [(PAGE_TO_ADDR k, r + Z.of_nat n)].
Proof.
  revert s. induction n as [|n IH]; intros s Hwf Hr Hn Hk Hright.
  - cbn [split_down]. by rewrite Z.add_0_r.
  - specialize (Hright ltac:(done)).
    replace (r + Z.of_nat (S n) - 1) with (r + Z.of_nat n) in Hright by lia.
    cbn [split_down]. rewrite IH; [| |done|lia|done|].
    + rewrite (cover_split_step x b k _ (r + Z.of_nat n)) by (done || lia).
      replace (r + Z.of_nat (S n)) with (r + Z.of_nat n + 1) by lia.
      rewrite (cover_split x _ (r + Z.of_nat n)) by zlia. lia.
    + eapply split_step_wf; [done| |done..]. lia.
    + intros Hn0. pose proof (pow_div_page_mono (r + Z.of_nat n - 1) (r + Z.of_nat n)). lia.
Qed.

(** * [buddy_alloc] keeps the invariant *)

Lemma cover_two x l1 l2 b b' :
  b ∈ l1 → b' ∈ l2 → in_block x b = true → in_block x b' = true →
  2 ≤ cover x (l1 ++ l2).
Proof.
  intros H1 H2 Hb Hb'. rewrite cover_app.
  pose proof (cover_elem x b l1 H1 Hb). pose proof (cover_elem x b' l2 H2 Hb'). lia.
Qed.

Lemma cover_blocks_cons x o k l :
  cover x (blocks_of o (k :: l)) = cover x [(PAGE_TO_ADDR k, o)] + cover x (blocks_of o l).
Proof. unfold blocks_of. cbn [map]. by rewrite cover_cons. Qed.

Lemma overlap_point b b' :
  valid_block b → valid_block b' → ¬ disjoint b b' →
  ∃ x, 0 ≤ x < 2 ^ MAX_ORDER ∧ in_block x b = true ∧ in_block x b' = true.
Proof.
  intros (Ho & H0 & Hend & _) (Ho' & H0' & Hend' & _) Hnd. unfold disjoint in Hnd.
  pose proof (pow_pos b.2 ltac:(zlia)). pose proof (pow_pos b'.2 ltac:(zlia)).
  exists (Z.max b.1 b'.1). rewrite !in_block_iff. lia.
Qed.

Lemma partition_disjoint l1 b l2 b' :
  partition (l1 ++ b :: l2) → b' ∈ l1 ++ l2 → disjoint b b'.
Proof.
  intros [Hvalid Hcover] Hb'.
  destruct (decide (disjoint b b')) as [|Hnd]; [done|]. exfalso.
  assert (valid_block b) as Hb.
  { eapply Forall_forall in Hvalid; [done|]. apply elem_of_app. right. left. }
  assert (valid_block b') as Hvb'.
  { eapply Forall_forall in Hvalid; [done|].
    apply elem_of_app in Hb' as [?|?]; apply elem_of_app; [by left|right; by right]. }
  destruct (overlap_point b b' Hb Hvb' Hnd) as (x & Hx & Hxb & Hxb').
  by rewrite (partition_unique x l1 b l2 b' (Hcover x Hx) Hxb Hb') in Hxb'.
Qed.

(** A free block and a live block never start on the same page. *)
Lemma free_live_heads c k o b :
  partition (free_blocks (st c) ++ live c) →
  MIN_ORDER ≤ o ≤ MAX_ORDER → k ∈ fl (st c) o → b ∈ live c →
  ADDR_TO_PAGE b.1 ≠ k.
Proof.
  intros [Hvalid Hcover] Ho Hk Hb Heq.
  assert (valid_block b) as Hvb.
  { eapply Forall_forall in Hvalid; [done|]. apply elem_of_app. by right. }
  assert (valid_block (PAGE_TO_ADDR k, o)) as Hvk.
  { eapply Forall_forall in Hvalid; [done|]. apply elem_of_app. left.
    by apply free_block_intro. }
  destruct (valid_block_page b Hvb) as [Hb1 _]. rewrite Heq in Hb1.
  destruct (valid_block_in b Hvb) as [Hin Hx].
  destruct (valid_block_in _ Hvk) as [Hin' _]. cbn [fst] in Hin'.
  rewrite <-Hb1 in Hin' at 1.
  pose proof (cover_two b.1 _ _ _ _ (free_block_intro _ _ _ Ho Hk) Hb Hin' Hin) as H2.
  rewrite (Hcover _ Hx) in H2. lia.
Qed.

Lemma valid_block_shrink A i r :
  valid_block (A, i) → MIN_ORDER ≤ r ≤ i → valid_block (A, r).
Proof.
  intros (Ho & H0 & Hend & Hmod) Hr. unfold valid_block. cbn [fst snd] in *.
  split_and!; [lia..|done| |].
  - pose proof (Z.pow_le_mono_r 2 r i ltac:(lia) ltac:(lia)). lia.
  - apply (mod_pow_le _ r i); [zlia|done].
Qed.

Lemma valid_block_right A i j :
  valid_block (A, i) → MIN_ORDER ≤ j < i → valid_block (A + 2 ^ j, j).
Proof.
  intros (Ho & H0 & Hend & Hmod) Hj. unfold valid_block. cbn [fst snd] in *.
  pose proof (pow_pos j ltac:(zlia)).
  pose proof (Z.pow_le_mono_r 2 (j + 1) i ltac:(lia) ltac:(lia)) as Hle.
  rewrite pow_succ in Hle by zlia.
  split_and!; [lia..|].
  apply (mod_pow_le _ j i) in Hmod; [|zlia].
  rewrite <-(Z.mul_1_l (2 ^ j)) at 1. rewrite Z.mod_add by lia. done.
Qed.

Lemma valid_block_half_page k i :
  valid_block (PAGE_TO_ADDR k, i) → MIN_ORDER < i →
  0 ≤ k ∧ k + 2 ^ (i - 1) / PAGE_SIZE < N_PAGES.
Proof.
  intros (Ho & H0 & Hend & Hmod) Hi. cbn [fst snd] in *.
  unfold PAGE_TO_ADDR in *. rewrite PAGE_SIZE_eq in H0, Hend.
  replace i with ((i - 1) + 1) in Hend by lia. rewrite pow_succ in Hend by zlia.
  rewrite (pow_page_mul (i - 1)) in Hend by lia.
  rewrite pow_div_page by lia. pose proof (pow_pos (i - 1 - MIN_ORDER) ltac:(lia)).
  rewrite arena_size_eq in Hend. rewrite PAGE_SIZE_eq in Hend. rewrite N_PAGES_eq. lia.
Qed.

Theorem alloc_inv c size :
  Inv c → ∃ c', step c (Alloc size) = Some c' ∧ Inv c'.
Proof.
  destruct c as [s lv]. intros (Hwf & [Hvalid Hcover] & Hlive & Hord). cbn [st live] in *.
  assert (Hinv : Inv (mk_config s lv)) by done.
  cbn [step st live]. rewrite buddy_alloc_closed by done.
  destruct (decide (size ≤ 0)); [by eauto|].
  pose proof (REQ_ORDER_ge size) as Hr. set (r := REQ_ORDER size) in *.
  destruct (first_nonempty _ _ _) as [i|] eqn:Hfirst; [|by eauto].
  apply first_nonempty_Some in Hfirst as (Hi & Hne & Hlow).
  destruct (fl s i) as [|k l] eqn:Hfl; [done|].
  assert (Hki : k ∈ fl s i) by (rewrite Hfl; left).
  assert (Hvk : valid_block (PAGE_TO_ADDR k, i)).
  { eapply Forall_forall in Hvalid; [done|]. apply elem_of_app. left.
    apply free_block_intro; [lia|done]. }
  assert (Hk : 0 ≤ k < N_PAGES) by by eapply wf_members.
  assert (Hright : r < i → k + 2 ^ (i - 1) / PAGE_SIZE < N_PAGES).
  { intros Hlt. apply valid_block_half_page; [done|lia]. }
  rewrite decide_True by done.
  eexists. split; [done|].
  assert (Hwf0 : wf_state (upd_fl i l s)).
  { apply wf_upd_fl; [done|]. apply Forall_forall. intros x Hx.
    eapply (wf_members s Hwf i). rewrite Hfl. by right. }
  assert (Hright' : Z.to_nat (i - r) ≠ 0%nat →
            k + 2 ^ (r + Z.of_nat (Z.to_nat (i - r)) - 1) / PAGE_SIZE < N_PAGES).
  { intros ?. replace (r + Z.of_nat (Z.to_nat (i - r)) - 1) with (i - 1) by lia.
    apply Hright. lia. }
  assert (Hwf1 : wf_state (split_down false (PAGE_TO_ADDR k) r (Z.to_nat (i - r)) (upd_fl i l s))).
  { apply split_down_wf; (done || lia). }
  split_and!; cbn [st live].
  - by apply wf_upd_order.
  - split.
    + rewrite free_blocks_upd_order. apply Forall_app. split.
      * apply Forall_forall. intros b (Hb & k' & Hk' & Hbk)%elem_of_free_blocks.
        rewrite fl_split_down in Hk' by (done || zlia).
        rewrite fl_upd_fl in Hk' by (done || zlia).
        assert (Hb' : b = (b.1, b.2)) by by destruct b.
        destruct (decide (r ≤ b.2 < r + Z.of_nat (Z.to_nat (i - r)))) as [Hin|Hout].
        { rewrite decide_False in Hk' by lia. rewrite Hlow in Hk' by lia.
          apply list_elem_of_singleton in Hk' as ->.
          rewrite right_half_addr in Hbk by lia. rewrite Hb', Hbk.
          apply (valid_block_right _ i); [done|lia]. }
        eapply Forall_forall in Hvalid; [done|]. apply elem_of_app. left.
        apply elem_of_free_blocks. split; [done|]. exists k'. split; [|done].
        destruct (decide (i = b.2)) as [<-|]; [|done]. rewrite Hfl. by right.
      * constructor; [apply (valid_block_shrink _ i); (done || lia)|].
        by apply Forall_app in Hvalid as [_ ?].
    + intros x Hx. rewrite free_blocks_upd_order, cover_app, cover_cons.
      pose proof (cover_split_down x false k r (Z.to_nat (i - r)) (upd_fl i l s)
                    Hwf0 Hr ltac:(lia) ltac:(lia) Hright') as Hsplit.
      replace (r + Z.of_nat (Z.to_nat (i - r))) with i in Hsplit by lia.
      rewrite cover_free_blocks_upd, Hfl, cover_blocks_cons in Hsplit by (done || lia).
      specialize (Hcover x Hx). rewrite cover_app in Hcover. lia.
  - intros b [->|Hb]%elem_of_cons.
    + cbn [fst snd]. rewrite addr_page_addr, page_order_upd_order by (done || lia).
      by rewrite decide_True.
    + assert (ADDR_TO_PAGE b.1 ≠ k) as Hne'.
      { eapply (free_live_heads (mk_config s lv)); cbn [st live]; [done| |done..]. lia. }
      assert (valid_block b) as Hvb.
      { eapply Forall_forall in Hvalid; [done|]. apply elem_of_app. by right. }
      destruct (valid_block_page b Hvb) as [_ Hpb].
      rewrite page_order_upd_order by (done || lia). rewrite decide_False by done.
      rewrite page_order_split_down_false, page_order_upd_fl. by apply Hlive.
  - intros k' o Hk' Ho. rewrite page_order_upd_order in Ho by done.
    destruct (decide (k = k')) as [<-|].
    + injection Ho as <-. right. split; [lia|].
      apply (valid_block_shrink _ i r) in Hvk; [|lia]. apply Hvk.
    + rewrite page_order_split_down_false, page_order_upd_fl in Ho. by apply Hord.
Qed.

(** * [find_buddy] and one iteration of [buddy_free] *)

Lemma find_page_ok s t l :
  wf_state s → Forall (fun k => 0 ≤ k < N_PAGES) l →
  find_page t l s = Ok (find_addr t l) s.
Proof.
  intros Hwf. induction 1 as [|k l Hk Hl IH]; [done|].
  cbn [find_page find_addr]. unfold bind.
  destruct (page_at_ok s Hwf k Hk) as (o & -> & _). cbn [address].
  by destruct (decide (t = PAGE_TO_ADDR k)).
Qed.

Lemma find_addr_Some t l k : find_addr t l = Some k → k ∈ l ∧ PAGE_TO_ADDR k = t.
Proof.
  induction l as [|k' l IH]; [done|]. cbn [find_addr].
  destruct (decide (t = PAGE_TO_ADDR k')) as [->|Hne].
  - intros [= ->]. split; [left|done].
  - intros [? ?]%IH. split; [by right|done].
Qed.

Lemma find_addr_None t l k : find_addr t l = None → k ∈ l → PAGE_TO_ADDR k ≠ t.
Proof.
  induction l as [|k' l IH]; [by intros _ ?%elem_of_nil|]. cbn [find_addr].
  destruct (decide (t = PAGE_TO_ADDR k')) as [->|Hne]; [done|].
  intros Hn [->|?]%elem_of_cons; [done|by apply IH].
Qed.

Lemma fl_valid s o : wf_state s → Forall (fun k => 0 ≤ k < N_PAGES) (fl s o).
Proof. intros Hwf. apply Forall_forall. intros k Hk. by eapply wf_members. Qed.

Lemma find_buddy_ok s a o :
  wf_state s → MIN_ORDER ≤ o ≤ MAX_ORDER →
  find_buddy a o s = Ok (find_addr (BUDDY_ADDR a o) (fl s o)) s.
Proof.
  intros Hwf Ho. unfold find_buddy, bind. rewrite free_list_ok by done.
  apply find_page_ok; [done|by apply fl_valid].
Qed.

Lemma remove_first_valid s o k :
  wf_state s → Forall (fun k => 0 ≤ k < N_PAGES) (remove_first k (fl s o)).
Proof.
  intros Hwf. apply Forall_forall. intros k' Hk'%elem_of_remove_first. by eapply wf_members.
Qed.

(** One iteration of the loop of [buddy_free]. *)
Lemma free_loop_eq n a idx o s :
  wf_state s → MIN_ORDER ≤ o ≤ MAX_ORDER → 0 ≤ idx < N_PAGES →
  buddy_free_loop (S n) a idx o s =
  match find_addr (BUDDY_ADDR a o) (fl s o) with
  | None => Ok tt (upd_fl o (idx :: fl s o) (upd_order idx UNSET s))
  | Some k =>
      let s1 := upd_fl o (remove_first k (fl s o)) s in
      if decide (o < MAX_ORDER)
      then buddy_free_loop n
             (if decide (a > PAGE_TO_ADDR k) then PAGE_TO_ADDR k else a)
             (if decide (a > PAGE_TO_ADDR k) then k else idx) (o + 1) s1
      else Ok tt s1
  end.
Proof.
  intros Hwf Ho Hidx. cbn [buddy_free_loop]. unfold bind at 1.
  rewrite find_buddy_ok by done.
  destruct (find_addr _ _) as [k|] eqn:Hfind.
  - apply find_addr_Some in Hfind as [Hk Hkb].
    assert (0 ≤ k < N_PAGES) as Hkv by by eapply wf_members.
    unfold bind at 1. destruct (page_at_ok s Hwf k Hkv) as (o' & -> & _). cbn [address].
    rewrite decide_False by (intros Hne; by apply Hne).
    rewrite addr_page_addr. unfold bind at 1. rewrite list_del_ok by done.
    by destruct (decide (o < MAX_ORDER)).
  - unfold bind, CLEAR. rewrite set_order_ok by done.
    rewrite list_add_ok by (done || by apply wf_upd_order). done.
Qed.

(** * [buddy_free] keeps the invariant *)

Lemma cover_perm x l l' : l ≡ₚ l' → cover x l = cover x l'.
Proof. induction 1; cbn [cover]; lia. Qed.

Lemma release_Some a l b rest :
  release a l = Some (b, rest) → b.1 = a ∧ l ≡ₚ b :: rest.
Proof.
  revert b rest. induction l as [|b' l IH]; intros b rest; [done|]. cbn [release].
  destruct (decide (b'.1 = a)) as [Ha|Hne].
  - intros [= -> ->]. done.
  - destruct (release a l) as [[b0 r0]|] eqn:E; [|done]. intros [= -> <-].
    destruct (IH _ _ eq_refl) as [? Hp]. split; [done|]. rewrite Hp. apply Permutation_swap.
Qed.

Lemma release_is_Some a l b : b ∈ l → b.1 = a → is_Some (release a l).
Proof.
  induction 1 as [b l|b b' l Hin IH]; intros Ha; cbn [release].
  - rewrite decide_True by done. eauto.
  - destruct (decide (b'.1 = a)); [by eauto|].
    destruct (IH Ha) as [[b0 r0] ->]. eauto.
Qed.

Lemma valid_block_merge a o :
  valid_block (a, o) → valid_block (BUDDY_ADDR a o, o) →
  o < MAX_ORDER ∧ valid_block (round_down a (o + 1), o + 1).
Proof.
  intros (Ho & H0 & Hend & Hmod) (_ & H0' & Hend' & _). unfold valid_block.
  cbn [fst snd] in *.
  pose proof (pow_pos o ltac:(zlia)) as Hpos.
  assert (o < MAX_ORDER) as Hlt.
  { destruct (decide (o = MAX_ORDER)) as [->|]; [|lia].
    destruct (buddy_cases a MAX_ORDER ltac:(zlia) Hmod) as [[_ Hb]|[_ Hb]]; lia. }
  split; [done|]. rewrite round_down_mod by zlia. unfold round_down.
  pose proof (Z.pow_le_mono_r 2 (o + 1) MAX_ORDER ltac:(lia) ltac:(lia)) as Hle.
  destruct (buddy_cases a o ltac:(zlia) Hmod) as [[Hm Hb]|[Hm Hb]];
    rewrite Hm; rewrite pow_succ in * by zlia; split_and!; try lia.
Qed.

Lemma free_loop_inv n : ∀ a o s lv,
  wf_state s → partition (free_blocks s ++ (a, o) :: lv) →
  (∀ b, b ∈ lv → page_order s (ADDR_TO_PAGE b.1) = Some b.2) → orders_ok s →
  (Z.to_nat (MAX_ORDER - o) < n)%nat →
  ∃ s', buddy_free_loop n a (ADDR_TO_PAGE a) o s = Ok tt s' ∧ Inv (mk_config s' lv).
Proof.
  induction n as [|n IH]; intros a o s lv Hwf Hpart Hlive Hord Hn; [lia|].
  assert (Hpart' := Hpart). destruct Hpart' as [Hvalid Hcover].
  assert (valid_block (a, o)) as Hva.
  { eapply Forall_forall in Hvalid; [done|]. apply elem_of_app. right. left. }
  destruct (valid_block_page _ Hva) as [Hpa Hidx]. cbn [fst] in Hpa, Hidx.
  assert (MIN_ORDER ≤ o ≤ MAX_ORDER) as Ho by apply Hva.
  assert (a mod 2 ^ o = 0) as Hmod by apply Hva.
  assert (Forall valid_block (free_blocks s)) as Hvfree by by apply Forall_app in Hvalid as [? _].
  assert (Forall valid_block lv) as Hvlv.
  { apply Forall_app in Hvalid as [_ Hv]. by apply Forall_cons in Hv as [_ ?]. }
  rewrite free_loop_eq by done.
  destruct (find_addr _ _) as [k|] eqn:Hfind.
  - apply find_addr_Some in Hfind as [Hk Hkb].
    assert (valid_block (BUDDY_ADDR a o, o)) as Hvb.
    { eapply Forall_forall in Hvfree; [done|]. rewrite <-Hkb. by apply free_block_intro. }
    destruct (valid_block_merge a o Hva Hvb) as [Hlt Hvm].
    cbv zeta. rewrite decide_True by done.
    assert ((if decide (a > PAGE_TO_ADDR k) then PAGE_TO_ADDR k else a) = round_down a (o + 1))
      as -> by (rewrite Hkb, round_down_succ by (done || zlia); done).
    assert ((if decide (a > PAGE_TO_ADDR k) then k else ADDR_TO_PAGE a)
            = ADDR_TO_PAGE (round_down a (o + 1))) as ->.
    { rewrite round_down_succ by (done || zlia). rewrite <-Hkb.
      case_decide; [by rewrite addr_page_addr|done]. }
    apply IH; [| |done|done|lia].
    + apply wf_upd_fl; [done|by apply remove_first_valid].
    + split.
      * apply Forall_app. split; [|by constructor].
        apply valid_free_blocks_upd; [done..|].
        apply (valid_blocks_of_sub s); [done..|]. intros k'. apply elem_of_remove_first.
      * intros x Hx. specialize (Hcover x Hx).
        rewrite cover_app, cover_cons in Hcover |- *.
        rewrite cover_free_blocks_upd by done.
        rewrite (cover_blocks_remove x o k (fl s o)) by done.
        rewrite cover_merge by (done || zlia). rewrite Hkb. lia.
  - eexists. split; [done|]. split_and!; cbn [st live].
    + apply wf_upd_fl; [by apply wf_upd_order|]. constructor; [done|by apply fl_valid].
    + split.
      * apply Forall_app. split; [|done].
        apply valid_free_blocks_upd; [by apply wf_upd_order|done..|].
        unfold blocks_of. cbn [map]. constructor; [by rewrite <-Hpa|].
        by apply (valid_blocks_of_sub s).
      * intros x Hx. specialize (Hcover x Hx).
        rewrite cover_app, cover_cons in Hcover. rewrite cover_app.
        rewrite cover_free_blocks_upd by (done || by apply wf_upd_order).
        rewrite free_blocks_upd_order, fl_upd_order, cover_blocks_cons, <-Hpa. lia.
    + intros b Hb. rewrite page_order_upd_fl.
      assert (valid_block b) as Hvb by by eapply Forall_forall in Hvlv.
      destruct (valid_block_page b Hvb) as [Hpb Hidxb].
      rewrite page_order_upd_order by (done || lia).
      rewrite decide_False; [by apply Hlive|]. intros Heq.
      pose proof (partition_disjoint _ _ _ b Hpart ltac:(apply elem_of_app; by right)) as Hd.
      unfold disjoint in Hd. cbn [fst snd] in Hd.
      destruct Hvb as (Hob & _).
      pose proof (pow_pos o ltac:(zlia)). pose proof (pow_pos b.2 ltac:(zlia)).
      rewrite Hpa, Hpb, Heq in Hd. lia.
    + intros k o' Hk Hko'. rewrite page_order_upd_fl in Hko'.
      rewrite page_order_upd_order in Hko' by done.
      case_decide; [left; congruence|by apply Hord].
Qed.

Theorem free_inv c a :
  Inv c → a ∈ (live c).*1 → ∃ c', step c (Free a) = Some c' ∧ Inv c'.
Proof.
  destruct c as [s lv]. intros (Hwf & Hpart & Hlive & Hord). cbn [st live] in *.
  intros ([a' o] & -> & Hb)%list_elem_of_fmap. cbn [fst step st live].
  destruct (release_is_Some a' lv _ Hb eq_refl) as [[b rest] Hrel]. rewrite Hrel.
  apply release_Some in Hrel as [Hba Hperm].
  assert (b ∈ lv) as Hblv by (rewrite Hperm; left).
  assert (partition (free_blocks s ++ b :: rest)) as Hpart'.
  { destruct Hpart as [Hvalid Hcover]. split; [by rewrite <-Hperm|].
    intros x Hx. rewrite <-(Hcover x Hx), !cover_app. f_equal. by apply cover_perm. }
  assert (valid_block b) as Hvb.
  { destruct Hpart' as [Hvalid _]. eapply Forall_forall in Hvalid; [done|].
    apply elem_of_app. right. left. }
  destruct (valid_block_page b Hvb) as [Hpb Hidx]. rewrite Hba in Hpb, Hidx.
  unfold buddy_free, bind.
  destruct (page_at_ok s Hwf _ Hidx) as (o' & -> & Ho'). cbn [order].
  specialize (Hlive b Hblv) as Hbo. rewrite Hba, Ho' in Hbo. injection Hbo as ->.
  destruct (free_loop_inv free_fuel a' b.2 s rest) as (s' & -> & Hinv); [done| | |done| |by eauto].
  - by rewrite <-Hba, <-surjective_pairing.
  - intros b' Hb'. apply Hlive. rewrite Hperm. by right.
  - destruct Hvb as (Hob & _). unfold free_fuel. zlia.
Qed.

(** * Reachable configurations *)

Lemma page_order_init k o : page_order init_state k = Some o → o = UNSET.
Proof.
  rewrite init_state_eq. unfold page_order. cbn [g_pages]. rewrite list_lookup_fmap.
  destruct (seqZ 0 N_PAGES !! Z.to_nat k); [|done]. by intros [= <-].
Qed.

Lemma init_inv : Inv init_config.
Proof.
  split_and!; cbn [st live init_config].
  - apply init_wf.
  - split.
    + apply (bool_decide_unpack _). vm_compute. reflexivity.
    + intros x Hx.
      assert (free_blocks init_state ++ [] = [(0, MAX_ORDER)]) as ->
        by (vm_compute; reflexivity).
      rewrite cover_single. unfold in_block. cbn [fst snd]. rewrite bool_decide_true; [done|lia].
  - by intros b ?%elem_of_nil.
  - intros k o _ ->%page_order_init. by left.
Qed.

Lemma step_inv c o c' : Inv c → step c o = Some c' → Inv c'.
Proof.
  intros Hinv Hstep. destruct o as [size|a].
  - destruct (alloc_inv c size Hinv) as (c'' & Hs & Hinv'). congruence.
  - destruct (free_inv c a Hinv) as (c'' & Hs & Hinv'); [|congruence].
    cbn [step] in Hstep. destruct (release a (live c)) as [[b rest]|] eqn:Hrel; [|done].
    apply release_Some in Hrel as [<- Hperm]. apply list_elem_of_fmap. exists b.
    split; [done|]. rewrite Hperm. left.
Qed.

Lemma run_inv ops : ∀ c c', Inv c → run c ops = Some c' → Inv c'.
Proof.
  induction ops as [|o ops IH]; intros c c' Hinv; cbn [run].
  - by intros [= <-].
  - destruct (step c o) as [c1|] eqn:Hstep; [|done]. intros Hrun.
    eapply IH; [|done]. by eapply step_inv.
Qed.

Lemma reachable_inv c : reachable c → Inv c.
Proof. intros [ops Hrun]. eapply run_inv; [apply init_inv|done]. Qed.

Lemma run_app c ops ops' :
  run c (ops ++ ops') = match run c ops with Some c' => run c' ops' | None => None end.
Proof.
  revert c. induction ops as [|o ops IH]; intros c; cbn [run app]; [done|].
  destruct (step c o); [apply IH|done].
Qed.

Lemma reachable_run c ops c' : reachable c → run c ops = Some c' → reachable c'.
Proof. intros [ops0 H0] Hrun. exists (ops0 ++ ops). by rewrite run_app, H0. Qed.

(** A live block stays live as long as its address is not freed. *)
Lemma step_keeps_live c o c' b :
  step c o = Some c' → o ≠ Free b.1 → b ∈ live c → b ∈ live c'.
Proof.
  intros Hstep Ho Hb. destruct o as [size|a]; cbn [step] in Hstep.
  - destruct (buddy_alloc size (st c)) as [[|A] s'| |]; [| |done..];
      injection Hstep as <-; cbn [live]; [done|by right].
  - destruct (release a (live c)) as [[b0 rest]|] eqn:Hrel; [|done].
    destruct (buddy_free _ _) as [[] s'| |]; [|done..]. injection Hstep as <-. cbn [live].
    apply release_Some in Hrel as [Hb0 Hperm]. rewrite Hperm in Hb.
    apply elem_of_cons in Hb as [->|]; [|done]. congruence.
Qed.

Lemma run_keeps_live ops : ∀ c c' b,
  run c ops = Some c' → Free b.1 ∉ ops → b ∈ live c → b ∈ live c'.
Proof.
  induction ops as [|o ops IH]; intros c c' b; cbn [run].
  - by intros [= <-].
  - destruct (step c o) as [c1|] eqn:Hstep; [|done]. intros Hrun Hnot Hb.
    apply not_elem_of_cons in Hnot as [Hne Hnot].
    eapply IH; [done..|]. eapply step_keeps_live; [done| |done]. congruence.
Qed.

(** ** Claims about reachable configurations *)

(** C1: a successful [buddy_alloc size] returns a block of order
    [r = max(MIN_ORDER, ceil(log2 size))]: its address is a multiple of
    [2^r] from the arena base and the block lies in the arena; it is
    disjoint from every live allocation and from every member of the
    free lists; and the page record of the address holds [r] after every
    further run of calls that does not free the address. *)
Theorem alloc_returns_block c size A s' :
  reachable c → buddy_alloc size (st c) = Ok (Mem A) s' →
  let r := Z.max MIN_ORDER (Z.log2_up size) in
  A mod 2 ^ r = 0 ∧ 0 ≤ A ∧ A + 2 ^ r ≤ 2 ^ MAX_ORDER ∧
  (∀ b, b ∈ live c → disjoint (A, r) b) ∧
  (∀ b, b ∈ free_blocks s' → disjoint (A, r) b) ∧
  (∀ ops c2, run (mk_config s' ((A, r) :: live c)) ops = Some c2 → Free A ∉ ops →
             page_order (st c2) (ADDR_TO_PAGE A) = Some r).
Proof.
  intros Hreach Halloc r.
  assert (step c (Alloc size) = Some (mk_config s' ((A, r) :: live c))) as Hstep.
  { cbn [step]. rewrite Halloc. unfold r, REQ_ORDER. by rewrite Z.max_comm. }
  pose proof (reachable_inv c Hreach) as Hinv.
  pose proof (step_inv _ _ _ Hinv Hstep) as Hinv'.
  destruct Hinv' as (Hwf' & Hpart' & Hlive' & Hord'). cbn [st live] in *.
  assert (valid_block (A, r)) as (_ & H0 & Hend & Hmod).
  { destruct Hpart' as [Hv _]. eapply Forall_forall in Hv; [done|].
    apply elem_of_app. right. left. }
  cbn [fst snd] in *. split_and!; [done..| | |].
  - intros b Hb. eapply partition_disjoint; [done|]. apply elem_of_app. by right.
  - intros b Hb. eapply partition_disjoint; [done|]. apply elem_of_app. by left.
  - intros ops c2 Hrun Hnot.
    assert (Inv c2) as (_ & _ & Hlive2 & _).
    { eapply run_inv; [|done]. eapply step_inv; done. }
    apply (Hlive2 (A, r)). eapply run_keeps_live; [done..|]. cbn [live]. left.
Qed.

(** C3: in every reachable configuration the blocks of the free lists and
    the live allocations are aligned blocks of the arena, every byte of the
    arena lies in exactly one of them, and any two of them are disjoint. *)
Theorem arena_coverage c :
  reachable c →
  let blocks := free_blocks (st c) ++ live c in
  Forall valid_block blocks ∧
  (∀ x, 0 ≤ x < 2 ^ MAX_ORDER → cover x blocks = 1) ∧
  (∀ l1 b l2 b', blocks = l1 ++ b :: l2 → b' ∈ l1 ++ l2 → disjoint b b').
Proof.
  intros Hreach blocks. destruct (reachable_inv c Hreach) as (_ & Hpart & _).
  fold blocks in Hpart. split_and!; [apply Hpart..|].
  intros l1 b l2 b' Heq Hb'. eapply partition_disjoint; [|done]. by rewrite <-Heq.
Qed.

(** Progress: in a reachable configuration [buddy_alloc] returns for every
    size and [buddy_free] returns for every live address. *)
Lemma reachable_progress c :
  reachable c →
  (∀ size, is_Some (step c (Alloc size))) ∧
  (∀ a, a ∈ (live c).*1 → is_Some (step c (Free a))).
Proof.
  intros Hinv%reachable_inv. split.
  - intros size. destruct (alloc_inv c size Hinv) as (c' & -> & _). eauto.
  - intros a Ha. destruct (free_inv c a Hinv Ha) as (c' & -> & _). eauto.
Qed.





(** * What [buddy_free] computes *)

Lemma in_block_merge x a j :
  0 ≤ j → a mod 2 ^ j = 0 →
  in_block x (round_down a (j + 1), j + 1) = true ↔
  in_block x (a, j) = true ∨ in_block x (BUDDY_ADDR a j, j) = true.
Proof.
  intros Hj Ha. pose proof (cover_merge x a j Hj Ha) as Hc. rewrite !cover_single in Hc.
  destruct (in_block x (round_down a (j + 1), j + 1)), (in_block x (a, j)),
    (in_block x (BUDDY_ADDR a j, j)); try lia; naive_solver.
Qed.

Lemma free_loop_spec n : ∀ a o0 s,
  wf_state s → valid_block (a, o0) → Forall valid_block (free_blocks s) →
  (Z.to_nat (MAX_ORDER - o0) < n)%nat →
  ∃ o s', buddy_free_loop n a (ADDR_TO_PAGE a) o0 s = Ok tt s' ∧ coalesced a o0 o s s'.
Proof.
  induction n as [|n IH]; intros a o0 s Hwf Hva Hvfree Hn; [lia|].
  destruct (valid_block_page _ Hva) as [Hpa Hidx]. cbn [fst] in Hpa, Hidx.
  assert (MIN_ORDER ≤ o0 ≤ MAX_ORDER) as Ho by apply Hva.
  assert (a mod 2 ^ o0 = 0) as Hmod by apply Hva.
  assert (0 ≤ o0) as Ho0 by zlia.
  rewrite free_loop_eq by done.
  destruct (find_addr _ _) as [k|] eqn:Hfind.
  - apply find_addr_Some in Hfind as [Hk Hkb].
    assert (valid_block (BUDDY_ADDR a o0, o0)) as Hvb.
    { eapply Forall_forall in Hvfree; [done|]. rewrite <-Hkb. by apply free_block_intro. }
    destruct (valid_block_merge a o0 Hva Hvb) as [Hlt Hvm].
    cbv zeta. rewrite decide_True by done.
    assert ((if decide (a > PAGE_TO_ADDR k) then PAGE_TO_ADDR k else a) = round_down a (o0 + 1))
      as Ha' by (rewrite Hkb, round_down_succ by done; done).
    assert ((if decide (a > PAGE_TO_ADDR k) then k else ADDR_TO_PAGE a)
            = ADDR_TO_PAGE (round_down a (o0 + 1))) as ->.
    { rewrite round_down_succ by done. rewrite <-Hkb.
      case_decide; [by rewrite addr_page_addr|done]. }
    rewrite Ha'. set (a' := round_down a (o0 + 1)) in *.
    set (s1 := upd_fl o0 (remove_first k (fl s o0)) s).
    destruct (IH a' (o0 + 1) s1) as (o & s' & Hloop & Hco); [| done | | lia |].
    { apply wf_upd_fl; [done|by apply remove_first_valid]. }
    { apply valid_free_blocks_upd; [done..|].
      apply (valid_blocks_of_sub s); [done..|]. intros k'. apply elem_of_remove_first. }
    exists o, s'. split; [done|].
    destruct Hco as (Hoo & Hbud & Hstop & Hhead & Hframe & Htop & Hrange & Hpages).
    assert (Hrd : ∀ j, o0 + 1 ≤ j → round_down a' j = round_down a j).
    { intros j Hj. apply round_down_round_down. lia. }
    assert (Hfl1 : ∀ j, 0 ≤ j → j ≠ o0 → fl s1 j = fl s j).
    { intros j Hj Hne. unfold s1. rewrite fl_upd_fl by (done || zlia). by rewrite decide_False. }
    assert (Ha'le : a' ≤ a ∧ a' ≤ BUDDY_ADDR a o0).
    { unfold a'. rewrite round_down_succ by done.
      destruct (decide (a > BUDDY_ADDR a o0)); lia. }
    rewrite (Hrd o) in * by lia.
    unfold coalesced. cbv zeta. split_and!.
    + lia.
    + lia.
    + intros j Hj. destruct (decide (j = o0)) as [->|Hne].
      * rewrite (round_down_aligned a o0) by done. rewrite <-Hkb, addr_page_addr.
        split_and!; [done..| |lia].
        rewrite Hframe by lia. unfold s1. rewrite fl_upd_fl by (done || zlia).
        by rewrite decide_True.
      * destruct (Hbud j ltac:(lia)) as (H1 & H2 & H3 & H4).
        rewrite Hrd in H1, H2, H3, H4 by lia. rewrite Hfl1 in H2, H3 by lia. done.
    + intros k' Hk'. apply Hstop. rewrite Hfl1 by lia. done.
    + rewrite Hhead, Hfl1 by lia. done.
    + intros j Hj Hout. rewrite Hframe by lia. apply Hfl1; zlia.
    + lia.
    + intros x. rewrite Hrange. unfold a'. rewrite in_block_merge by done. split.
      * intros [[?|?]|(j & Hj & Hx)].
        -- by left.
        -- right. exists o0. split; [lia|]. by rewrite round_down_aligned.
        -- right. exists j. split; [lia|]. by rewrite <-Hrd by lia.
      * intros [?|(j & Hj & Hx)]; [left; by left|].
        destruct (decide (j = o0)) as [->|Hne].
        -- left. right. by rewrite round_down_aligned in Hx.
        -- right. exists j. split; [lia|]. by rewrite Hrd by lia.
    + done.
  - exists o0. eexists. split; [done|].
    unfold coalesced. cbv zeta. rewrite (round_down_aligned a o0) by done.
    split_and!.
    + lia.
    + lia.
    + intros j Hj. lia.
    + intros k Hk. by eapply find_addr_None.
    + rewrite fl_upd_fl by (by apply wf_upd_order || zlia). by rewrite decide_True.
    + intros j Hj Hout. rewrite fl_upd_fl by (by apply wf_upd_order || zlia).
      rewrite decide_False by lia. done.
    + lia.
    + intros x. split; [by left|]. intros [?|(j & Hj & _)]; [done|lia].
    + done.
Qed.

(** C2: [buddy_free] of a live block returns, and what it has done is
    described by [coalesced]: the block and the buddies it merged with are
    one free block, the head of the free list of the final order [o], at the
    least address of the merged range; it merged at every order below [o],
    where the buddy was a member of the list of that order, and stopped at
    [o], where no member of the list is the buddy (at [MAX_ORDER] there is
    none). *)
Theorem free_coalesces c a o0 :
  reachable c → (a, o0) ∈ live c →
  ∃ o s', buddy_free (Mem a) (st c) = Ok tt s' ∧
          coalesced a o0 o (st c) s' ∧
          (round_down a o, o) ∈ free_blocks s'.
Proof.
  intros (Hwf & [Hvalid _] & Hlive & _)%reachable_inv Hb.
  assert (valid_block (a, o0)) as Hva.
  { eapply Forall_forall in Hvalid; [done|]. apply elem_of_app. by right. }
  destruct (valid_block_page _ Hva) as [Hpa Hidx]. cbn [fst] in Hpa, Hidx.
  unfold buddy_free, bind.
  destruct (page_at_ok _ Hwf _ Hidx) as (o' & -> & Ho'). cbn [order].
  specialize (Hlive _ Hb). cbn [fst snd] in Hlive. rewrite Ho' in Hlive. injection Hlive as ->.
  destruct (free_loop_spec free_fuel a o0 (st c)) as (o & s' & Hloop & Hco); [done..| | |].
  - by apply Forall_app in Hvalid as [? _].
  - destruct Hva as (Ho & _). cbn [snd] in Ho. unfold free_fuel. zlia.
  - exists o, s'. split_and!; [done..|].
    destruct Hco as (Hoo & _ & _ & Hhead & _).
    assert (MIN_ORDER ≤ o0) by apply Hva.
    assert (valid_block (round_down a o, o)) as Hvt.
    { destruct Hva as (Ho & H0 & Hend & Hmod). cbn [fst snd] in *.
      pose proof (round_down_bounds a o ltac:(zlia)).
      pose proof (round_down_mod a o ltac:(zlia)) as Hm.
      pose proof (pow_pos o ltac:(zlia)). pose proof (pow_pos o0 ltac:(zlia)).
      unfold valid_block. cbn [fst snd]. split_and!; [lia..| | |done].
      - rewrite round_down_div by zlia. apply Z.mul_nonneg_nonneg; [lia|].
        apply Z.div_pos; lia.
      - replace MAX_ORDER with (o + (MAX_ORDER - o)) at 1 by lia.
        rewrite Z.pow_add_r by zlia. pose proof (pow_pos (MAX_ORDER - o) ltac:(lia)).
        rewrite round_down_div in * by zlia.
        assert (a / 2 ^ o < 2 ^ (MAX_ORDER - o)); [|nia].
        apply Z.div_lt_upper_bound; [lia|]. rewrite <-Z.pow_add_r by zlia.
        replace (o + (MAX_ORDER - o)) with MAX_ORDER by lia. lia. }
    destruct (valid_block_page _ Hvt) as [Hpt _]. cbn [fst] in Hpt.
    rewrite Hpt. apply free_block_intro; [lia|]. rewrite Hhead. left.
Qed.

(** * The search at [MAX_ORDER] and the length of the loop of [buddy_free] *)

Lemma buddy_at_max a :
  0 ≤ a < 2 ^ MAX_ORDER → BUDDY_ADDR a MAX_ORDER = a + 2 ^ MAX_ORDER.
Proof.
  intros Ha. unfold BUDDY_ADDR. rewrite Z.shiftl_1_l, lxor_pow2 by done.
  assert (Z.testbit a MAX_ORDER = false) as ->; [|done].
  apply Z.testbit_false; [done|]. by rewrite Z.div_small.
Qed.

Lemma find_addr_none_intro t l :
  (∀ k, k ∈ l → PAGE_TO_ADDR k ≠ t) → find_addr t l = None.
Proof.
  induction l as [|k l IH]; intros Hl; [done|]. cbn [find_addr].
  rewrite decide_False.
  - apply IH. intros k' Hk'. apply Hl. by right.
  - intros ->. by apply (Hl k); [left|].
Qed.

Lemma wf_page_address s k p :
  wf_state s → g_pages s !! k = Some p →
  address p = PAGE_TO_ADDR (Z.of_nat k) ∧ 0 ≤ Z.of_nat k < N_PAGES.
Proof.
  intros Hwf Hp. pose proof (lookup_lt_Some _ _ _ Hp) as Hlt.
  assert (0 ≤ Z.of_nat k < N_PAGES) as Hk.
  { destruct Hwf as (_ & Hlen & _). rewrite Hlen in Hlt. lia. }
  destruct (wf_lookup_page s Hwf _ Hk) as [o Ho]. rewrite Nat2Z.id, Hp in Ho.
  by injection Ho as ->.
Qed.

Lemma page_addr_in_arena k : 0 ≤ k < N_PAGES → 0 ≤ PAGE_TO_ADDR k < 2 ^ MAX_ORDER.
Proof. unfold PAGE_TO_ADDR. zlia. Qed.

Lemma free_loop_terminates n : ∀ a idx o s,
  wf_state s → 0 ≤ a < 2 ^ MAX_ORDER → 0 ≤ idx < N_PAGES →
  MIN_ORDER ≤ o ≤ MAX_ORDER → (Z.to_nat (MAX_ORDER - o) < n)%nat →
  ∃ s', buddy_free_loop n a idx o s = Ok tt s'.
Proof.
  induction n as [|n IH]; intros a idx o s Hwf Ha Hidx Ho Hn; [lia|].
  rewrite free_loop_eq by done.
  destruct (find_addr _ _) as [k|] eqn:Hfind; [|by eauto].
  apply find_addr_Some in Hfind as [Hk _].
  assert (0 ≤ k < N_PAGES) as Hkv by by eapply wf_members.
  pose proof (page_addr_in_arena k Hkv).
  cbv zeta. destruct (decide (o < MAX_ORDER)); [|by eauto].
  apply IH; [|by case_decide..|lia|lia].
  apply wf_upd_fl; [done|by apply remove_first_valid].
Qed.

Lemma free_loop_bad_order n a idx o s :
  ¬ (MIN_ORDER ≤ o ≤ MAX_ORDER) → buddy_free_loop (S n) a idx o s = Fault.
Proof.
  intros Ho. cbn [buddy_free_loop]. unfold bind at 1, find_buddy. by rewrite free_list_bad.
Qed.

(** The budget of [buddy_free] is never used up. *)
Lemma buddy_free_terminates p s : wf_state s → buddy_free p s ≠ OutOfFuel.
Proof.
  intros Hwf. destruct p as [|a]; [done|]. unfold buddy_free, bind.
  destruct (decide (0 ≤ ADDR_TO_PAGE a < N_PAGES)) as [Hidx|Hidx].
  - destruct (page_at_ok s Hwf _ Hidx) as (o & -> & _). cbn [order].
    destruct (decide (MIN_ORDER ≤ o ≤ MAX_ORDER)) as [Ho|Ho].
    + destruct (free_loop_terminates free_fuel a (ADDR_TO_PAGE a) o s) as [s' ->]; try done.
      * unfold ADDR_TO_PAGE in Hidx. rewrite PAGE_SIZE_eq, N_PAGES_eq in Hidx.
        rewrite arena_size_eq.
        pose proof (Z.div_mod a 4096 ltac:(lia)). pose proof (Z.mod_pos_bound a 4096 ltac:(lia)).
        lia.
      * unfold free_fuel. zlia.
    + change free_fuel with (S 8). by rewrite free_loop_bad_order.
  - by rewrite page_at_bad.
Qed.

(** C10: for an address [a] inside the arena, the buddy address computed
    at [MAX_ORDER] is at or beyond the end of the arena and is the address
    of no page record; [find_buddy] at [MAX_ORDER] finds nothing; an
    iteration of the loop of [buddy_free] at [MAX_ORDER] clears the order
    field, links the page into [free_area[MAX_ORDER]] and returns; and from
    any order [o] the loop returns within [MAX_ORDER - o + 1] iterations
    without a fault, so that no free list above [MAX_ORDER] is used. *)
Theorem free_at_max_order s a idx :
  wf_state s → 0 ≤ a < 2 ^ MAX_ORDER → 0 ≤ idx < N_PAGES →
  2 ^ MAX_ORDER ≤ BUDDY_ADDR a MAX_ORDER ∧
  (∀ k p, g_pages s !! k = Some p → address p ≠ BUDDY_ADDR a MAX_ORDER) ∧
  find_buddy a MAX_ORDER s = Ok None s ∧
  (∀ n, buddy_free_loop (S n) a idx MAX_ORDER s =
        Ok tt (upd_fl MAX_ORDER (idx :: fl s MAX_ORDER) (upd_order idx UNSET s))) ∧
  (∀ o, MIN_ORDER ≤ o ≤ MAX_ORDER →
        ∃ s', buddy_free_loop (Z.to_nat (MAX_ORDER - o + 1)) a idx o s = Ok tt s').
Proof.
  intros Hwf Ha Hidx. pose proof (buddy_at_max a Ha) as Hb.
  assert (find_addr (BUDDY_ADDR a MAX_ORDER) (fl s MAX_ORDER) = None) as Hnone.
  { apply find_addr_none_intro. intros k Hk.
    pose proof (page_addr_in_arena k (wf_members s Hwf _ _ Hk)). lia. }
  split_and!.
  - lia.
  - intros k p Hp. destruct (wf_page_address s k p Hwf Hp) as [-> Hk].
    pose proof (page_addr_in_arena _ Hk). lia.
  - by rewrite find_buddy_ok, Hnone.
  - intros n. by rewrite free_loop_eq, Hnone.
  - intros o Ho. apply free_loop_terminates; [done..|lia].
Qed.

Lemma free_at_max_order_witness :
  wf_state init_state ∧ find_buddy 0 MAX_ORDER init_state = Ok None init_state.
Proof.
  assert (wf_state init_state) as Hwf by (apply (bool_decide_unpack _); vm_compute; reflexivity).
  split; [exact Hwf|].
  apply (free_at_max_order init_state 0 0); [exact Hwf|done|done].
Defined.

(** * Failures of [buddy_alloc] *)

(** C5: [buddy_alloc] returns [NULL] for every size [<= 0] (the failure
    [InvalidSize]); for a positive size it returns [NULL] (the failure
    [OutOfMemory]) if and only if the size exceeds [2^MAX_ORDER] or every
    free list from the requested order to [MAX_ORDER] is empty; and whenever
    it returns [NULL] the free lists and the page table are unchanged. *)
Theorem alloc_failure s size :
  wf_state s →
  (size ≤ 0 → buddy_alloc size s = Ok NULL s) ∧
  (0 < size →
   ((∃ s', buddy_alloc size s = Ok NULL s') ↔
    (2 ^ MAX_ORDER < size ∨ ∀ j, REQ_ORDER size ≤ j ≤ MAX_ORDER → fl s j = []))) ∧
  (∀ s', buddy_alloc size s = Ok NULL s' → s' = s).
Proof.
  intros Hwf. rewrite buddy_alloc_closed by done.
  pose proof (REQ_ORDER_ge size) as Hr. set (r := REQ_ORDER size) in *.
  destruct (decide (size ≤ 0)) as [Hneg|Hpos].
  { split_and!; [done|lia|by intros s' [= <-]]. }
  assert (2 ^ MAX_ORDER < size → MAX_ORDER < r) as Hbig.
  { intros Hlt. apply Z.log2_up_lt_pow2 in Hlt; [|lia]. unfold r, REQ_ORDER. lia. }
  destruct (first_nonempty _ _ _) as [i|] eqn:Hfirst.
  - apply first_nonempty_Some in Hfirst as (Hi & Hne & Hlow).
    assert (∀ s', (match fl s i with
                   | [] => Fault
                   | k :: l =>
                       if decide (r < i → k + 2 ^ (i - 1) / PAGE_SIZE < N_PAGES)
                       then Ok (Mem (PAGE_TO_ADDR k))
                              (upd_order k r (split_down false (PAGE_TO_ADDR k) r
                                 (Z.to_nat (i - r)) (upd_fl i l s)))
                       else Fault
                   end) ≠ Ok NULL s') as Hnot.
    { intros s'. destruct (fl s i); [done|]. by case_decide. }
    split_and!; [lia| |].
    + intros _. split.
      * intros [s' Hs']. by apply Hnot in Hs'.
      * intros [Hlt|Hall]; [apply Hbig in Hlt; lia|]. destruct Hne. apply Hall. lia.
    + intros s' Hs'. by apply Hnot in Hs'.
  - split_and!; [lia| |by intros s' [= <-]].
    intros _. split; [|by eauto]. intros _. right. intros j Hj.
    apply (first_nonempty_None _ _ _ Hfirst). lia.
Qed.

Lemma alloc_failure_witness :
  wf_state init_state ∧ buddy_alloc 0 init_state = Ok NULL init_state.
Proof.
  assert (wf_state init_state) as Hwf by (apply (bool_decide_unpack _); vm_compute; reflexivity).
  split; [exact Hwf|].
  apply (alloc_failure init_state 0 Hwf). done.
Defined.

(** * The descent of [buddy_alloc] *)

(** A successful [buddy_alloc] in its closed form. *)
Lemma buddy_alloc_success s size A s' :
  wf_state s → buddy_alloc size s = Ok (Mem A) s' →
  let r := REQ_ORDER size in
  ∃ i k l,
    first_nonempty s (Z.to_nat (MAX_ORDER + 1 - r)) r = Some i ∧
    r ≤ i ≤ MAX_ORDER ∧ (∀ j, r ≤ j < i → fl s j = []) ∧
    fl s i = k :: l ∧ A = PAGE_TO_ADDR k ∧ 0 ≤ k < N_PAGES ∧
    (r < i → k + 2 ^ (i - 1) / PAGE_SIZE < N_PAGES) ∧
    s' = upd_order k r (split_down false A r (Z.to_nat (i - r)) (upd_fl i l s)).
Proof.
  intros Hwf Halloc r. rewrite buddy_alloc_closed in Halloc by done. fold r in Halloc.
  destruct (decide (size ≤ 0)); [done|].
  destruct (first_nonempty _ _ _) as [i|] eqn:Hfirst; [|done].
  pose proof (first_nonempty_Some _ _ _ _ Hfirst) as (Hi & Hne & Hlow).
  destruct (fl s i) as [|k l] eqn:Hfl; [done|].
  destruct (decide _) as [Hright|]; [|done]. injection Halloc as <- <-.
  exists i, k, l. split_and!; try done; try lia.
  - eapply (wf_members s Hwf i). rewrite Hfl. left.
  - eapply (wf_members s Hwf i). rewrite Hfl. left.
Qed.

(** C4 as stated fails: after [buddy_alloc(4096)] on the initial state the
    right half of the split at order 19 heads the free list of order 19, and
    the order field of its page is still [UNSET], not 19. *)
Lemma right_half_order_counterexample :
  buddy_alloc 4096 init_state = Ok (Mem 0) page_allocated ∧
  first_nonempty init_state (Z.to_nat (MAX_ORDER + 1 - REQ_ORDER 4096))
    (REQ_ORDER 4096) = Some 20 ∧
  REQ_ORDER 4096 ≤ 19 < 20 ∧
  fl page_allocated 19 = [ADDR_TO_PAGE (0 + 2 ^ 19)] ∧
  page_order page_allocated (ADDR_TO_PAGE (0 + 2 ^ 19)) = Some UNSET ∧ UNSET ≠ 19.
Proof.
  split; [vm_compute; reflexivity|].
  split; [vm_compute; reflexivity|].
  split; [vm_compute; split; congruence|].
  split; [vm_compute; reflexivity|].
  split; [vm_compute; reflexivity|done].
Qed.

(** C4, amended: in a successful [buddy_alloc], with [i] the first order
    from the requested order [r] whose free list is not empty, the block at
    the head of that list is unlinked and returned with its order field set
    to [r] (the left halves are kept), and for every [j] from [i - 1] down
    to [r] the right half at [A + 2^j] is inserted at the head of the free
    list of order [j], the order field of its page being left as it was. *)
Theorem split_descent s size A s' :
  wf_state s → buddy_alloc size s = Ok (Mem A) s' →
  let r := REQ_ORDER size in
  ∃ i l,
    first_nonempty s (Z.to_nat (MAX_ORDER + 1 - r)) r = Some i ∧
    fl s i = ADDR_TO_PAGE A :: l ∧ fl s' i = l ∧
    A = PAGE_TO_ADDR (ADDR_TO_PAGE A) ∧
    page_order s' (ADDR_TO_PAGE A) = Some r ∧
    ∀ j, r ≤ j < i →
      fl s' j = ADDR_TO_PAGE (A + 2 ^ j) :: fl s j ∧
      page_order s' (ADDR_TO_PAGE (A + 2 ^ j)) = page_order s (ADDR_TO_PAGE (A + 2 ^ j)).
Proof.
  intros Hwf Halloc r.
  destruct (buddy_alloc_success s size A s' Hwf Halloc)
    as (i & k & l & Hfirst & Hi & Hlow & Hfl & -> & Hk & Hright & ->).
  fold r in Hfirst, Hi, Hlow, Hright |- *.
  pose proof (REQ_ORDER_ge size) as Hr. fold r in Hr.
  assert (Hwf0 : wf_state (upd_fl i l s)).
  { apply wf_upd_fl; [done|]. apply Forall_forall. intros x Hx.
    eapply (wf_members s Hwf i). rewrite Hfl. by right. }
  assert (Hright' : Z.to_nat (i - r) ≠ 0%nat →
            k + 2 ^ (r + Z.of_nat (Z.to_nat (i - r)) - 1) / PAGE_SIZE < N_PAGES).
  { intros ?. replace (r + Z.of_nat (Z.to_nat (i - r)) - 1) with (i - 1) by lia.
    apply Hright. lia. }
  assert (Hwf1 : wf_state (split_down false (PAGE_TO_ADDR k) r (Z.to_nat (i - r)) (upd_fl i l s))).
  { apply split_down_wf; (done || lia). }
  exists i, l. rewrite addr_page_addr. split_and!; try done.
  - rewrite fl_upd_order, fl_split_down by (done || zlia).
    rewrite decide_False by lia. rewrite fl_upd_fl by (done || zlia). by rewrite decide_True.
  - rewrite page_order_upd_order by (done || lia). by rewrite decide_True.
  - intros j Hj. split.
    + rewrite fl_upd_order, fl_split_down by (done || zlia).
      rewrite decide_True by lia. rewrite fl_upd_fl by (done || zlia).
      rewrite decide_False by lia. done.
    + pose proof (right_half_valid k j (i - 1) ltac:(lia) ltac:(lia) ltac:(apply Hright; lia)).
      rewrite page_order_upd_order by (done || lia).
      rewrite decide_False.
      * by rewrite page_order_split_down_false, page_order_upd_fl.
      * rewrite right_page_eq by lia. pose proof (pow_div_page_pos j ltac:(lia)). lia.
Qed.

Lemma split_descent_witness :
  wf_state init_state ∧
  buddy_alloc 4096 init_state = Ok (Mem 0) page_allocated ∧
  ∃ i l, first_nonempty init_state
           (Z.to_nat (MAX_ORDER + 1 - REQ_ORDER 4096)) (REQ_ORDER 4096) = Some i ∧
         fl init_state i = ADDR_TO_PAGE 0 :: l.
Proof.
  assert (wf_state init_state) as Hwf by (apply (bool_decide_unpack _); vm_compute; reflexivity).
  assert (buddy_alloc 4096 init_state = Ok (Mem 0) page_allocated) as Halloc
    by (vm_compute; reflexivity).
  split; [exact Hwf|]. split; [exact Halloc|].
  destruct (split_descent init_state 4096 0 page_allocated Hwf Halloc) as (i & l & H1 & H2 & _).
  exists i, l. exact (conj H1 H2).
Defined.

(** * The recursion of [buddy_alloc] and the iterative algorithm *)






(** * Scenarios from the initial state *)

(** C6 as stated fails: the two orders of freeing do not produce the same
    state. *)
Lemma free_order_counterexample :
  run init_config [Alloc 65536; Alloc 65536] = Some two_blocks ∧
  run two_blocks [Free 0; Free 65536] = Some freed_in_order ∧
  run two_blocks [Free 65536; Free 0] = Some freed_in_reverse ∧
  st freed_in_order ≠ st freed_in_reverse.
Proof.
  split; [vm_compute; reflexivity|].
  split; [vm_compute; reflexivity|].
  split; [vm_compute; reflexivity|].
  intros Heq. apply (f_equal (fun s => page_order s 16)) in Heq.
  vm_compute in Heq. congruence.
Qed.

(** C6, amended: from the initial state two allocations of 64 KiB return
    the adjacent blocks at 0 and at 64 KiB; freeing them in either order
    leaves the same free lists, those of the initial state: the list of
    [MAX_ORDER] holds exactly the block at the arena base and every other
    list is empty.  The page tables agree except for the order field of the
    page of the second block, which keeps 16 when the first block is freed
    first and is [UNSET] otherwise. *)
Theorem free_order_free_lists :
  0 < 65536 ∧ 65536 - 0 = 64 * 1024 ∧
  buddy_alloc 65536 init_state = Ok (Mem 0) one_block ∧
  buddy_alloc 65536 one_block = Ok (Mem 65536) (st two_blocks) ∧
  run two_blocks [Free 0; Free 65536] = Some freed_in_order ∧
  run two_blocks [Free 65536; Free 0] = Some freed_in_reverse ∧
  free_area (st freed_in_order) = free_area (st freed_in_reverse) ∧
  (∀ o, MIN_ORDER ≤ o ≤ MAX_ORDER →
        fl (st freed_in_order) o = if decide (o = MAX_ORDER) then [0] else []) ∧
  st freed_in_reverse = init_state ∧
  g_pages (st freed_in_order)
  = <[16%nat := mk_page 16 (PAGE_TO_ADDR 16) 16]> (g_pages (st freed_in_reverse)).
Proof.
  split_and!.
  - done.
  - done.
  - vm_compute. reflexivity.
  - vm_compute. reflexivity.
  - vm_compute. reflexivity.
  - vm_compute. reflexivity.
  - vm_compute. reflexivity.
  - intros o Ho.
    assert (o ∈ orders) as Hin by by apply elem_of_orders.
    revert Hin. generalize o. apply Forall_forall.
    apply (bool_decide_unpack _). vm_compute. reflexivity.
  - vm_compute. reflexivity.
  - vm_compute. reflexivity.
Qed.

(** C9 as stated fails: the text that [buddy_dump] writes is not the pairs
    separated by single spaces and then the line terminator. *)
Lemma dump_counterexample :
  buddy_alloc (1024 * 1024) init_state = Ok (Mem 0) arena_allocated ∧
  buddy_alloc 4096 arena_allocated = Ok NULL arena_refused ∧
  buddy_free (Mem 0) arena_refused = Ok tt arena_freed ∧
  buddy_dump arena_freed ≠ Ok (dump_pairs +:+ newline) arena_freed.
Proof.
  split; [vm_compute; reflexivity|].
  split; [vm_compute; reflexivity|].
  split; [vm_compute; reflexivity|].
  intros Heq.
  apply (f_equal (fun r => match r with Ok text _ => text | _ => EmptyString end)) in Heq.
  vm_compute in Heq. congruence.
Qed.

(** C9, amended: from the initial state [buddy_alloc] of 1 MiB returns the
    arena base, a following [buddy_alloc] of 4 KiB returns [NULL], and after
    [buddy_free] of the first block [buddy_dump] writes, for each order from
    [MIN_ORDER] to [MAX_ORDER], the pair count:size-in-KiB followed by a
    single space, also after the last pair, and then the line terminator. *)
Theorem dump_scenario :
  buddy_alloc (1024 * 1024) init_state = Ok (Mem 0) arena_allocated ∧
  buddy_alloc 4096 arena_allocated = Ok NULL arena_refused ∧
  buddy_free (Mem 0) arena_refused = Ok tt arena_freed ∧
  buddy_dump arena_freed = Ok (dump_pairs +:+ " " +:+ newline) arena_freed ∧
  buddy_dump arena_freed =
    Ok (foldr (fun o text => dump_entry (length (fl arena_freed o)) o +:+ text)
              newline orders) arena_freed.
Proof.
  split; [vm_compute; reflexivity|].
  split; [vm_compute; reflexivity|].
  split; [vm_compute; reflexivity|].
  split; vm_compute; reflexivity.
Qed.

(** ** Other scenarios of section 8 of the specification *)

Example scenario_split_chain :
  buddy_alloc (60 * 1024) init_state = Ok (Mem 0) split_chain ∧
  drop (Z.to_nat MIN_ORDER) (free_area split_chain)
  = [[]; []; []; []; [16]; [32]; [64]; [128]; []] ∧
  buddy_dump split_chain =
    Ok ("0:4K 0:8K 0:16K 0:32K 1:64K 1:128K 1:256K 1:512K 0:1024K " +:+ newline) split_chain ∧
  buddy_free (Mem 0) split_chain = Ok tt init_state.
Proof.
  split; [vm_compute; reflexivity|].
  split; [vm_compute; reflexivity|].
  split; vm_compute; reflexivity.
Qed.

Example scenario_fragmentation :
  run init_config (replicate 256 (Alloc 4096)) = Some all_pages_allocated ∧
  length (live all_pages_allocated) = 256%nat ∧
  buddy_alloc 4096 (st all_pages_allocated) = Ok NULL (st all_pages_allocated).
Proof.
  split; [vm_compute; reflexivity|].
  split; vm_compute; reflexivity.
Qed.

Example scenario_invalid_size :
  buddy_alloc 0 init_state = Ok NULL init_state ∧
  buddy_alloc (-1) init_state = Ok NULL init_state.
Proof. split; vm_compute; reflexivity. Qed.

(** * Instances of the theorems about reachable configurations *)

Lemma alloc_returns_block_witness :
  reachable init_config ∧
  buddy_alloc 4096 (st init_config) = Ok (Mem 0) page_allocated ∧
  0 mod 2 ^ Z.max MIN_ORDER (Z.log2_up 4096) = 0 ∧
  page_order page_allocated (ADDR_TO_PAGE 0) = Some (Z.max MIN_ORDER (Z.log2_up 4096)).
Proof.
  assert (reachable init_config) as Hreach by (exists []; reflexivity).
  assert (buddy_alloc 4096 (st init_config) = Ok (Mem 0) page_allocated) as Halloc
    by (vm_compute; reflexivity).
  split; [exact Hreach|]. split; [exact Halloc|].
  destruct (alloc_returns_block init_config 4096 0 page_allocated Hreach Halloc)
    as (Hmod & _ & _ & _ & _ & Hord).
  split; [exact Hmod|]. apply (Hord [] _ eq_refl). apply not_elem_of_nil.
Defined.

Lemma free_coalesces_witness :
  reachable first_freed ∧ (65536, 16) ∈ live first_freed ∧
  ∃ o s', buddy_free (Mem 65536) (st first_freed) = Ok tt s' ∧
          coalesced 65536 16 o (st first_freed) s'.
Proof.
  assert (reachable first_freed) as Hreach.
  { exists [Alloc 65536; Alloc 65536; Free 0]. vm_compute. reflexivity. }
  assert ((65536, 16) ∈ live first_freed) as Hlive.
  { apply (bool_decide_unpack _). vm_compute. reflexivity. }
  split; [exact Hreach|]. split; [exact Hlive|].
  destruct (free_coalesces first_freed 65536 16 Hreach Hlive) as (o & s' & H1 & H2 & _).
  exists o, s'. exact (conj H1 H2).
Defined.

Lemma arena_coverage_witness :
  reachable two_blocks ∧
  ∀ x, 0 ≤ x < 2 ^ MAX_ORDER → cover x (free_blocks (st two_blocks) ++ live two_blocks) = 1.
Proof.
  assert (reachable two_blocks) as Hreach.
  { exists [Alloc 65536; Alloc 65536]. vm_compute. reflexivity. }
  split; [exact Hreach|]. apply (arena_coverage two_blocks Hreach).
Defined.
